(** * emmon: embedded Linux system monitor

    A shallow embedding of the metrics acquisition pipeline
    ([monitor/system.go]), of the web adapter ([web/server.go]) and of the
    panels of the terminal adapter that show bytes, temperatures and pins
    ([terminal/ui.go]).

    Data.
    - Go strings are byte strings: [string] (a list of 8-bit [ascii]).
    - [float64] is the kernel's binary64 type [float]; [uint64] and [int]
      are [Z], kept in range by the parsers that produce them.
    - A slice is a list (the nil slice is the empty list), a Go map is a
      [gmap] (the nil map is the empty map).
    - A Go function returning a value and an error under the usual
      convention (the value with a nil error, or the zero value or nil
      pointer with an error) returns [Result T]: [Ok v] stands for [v] with
      a nil error, [Err e] for the error [e].

    Effects.
    - Code that talks to the operating system runs in the state monad [IO]
      over a [World]: the OS state it reads, a logical clock that advances
      by one with every call into the OS, and the logger's journal.
    - The OS state is what each interface answers; it stays the same while
      one computation runs.
    - The goroutines of the web server are a transition system: each
      goroutine has a program point, a step executes one statement.
    - What the terminal adapter draws is the list of its calls of
      [drawText]; a call of [fmt.Sprintf] is kept as format and arguments.

    Collaborators. The Go standard library is modelled as far as the
    monitor uses it ([strings], [bufio.Scanner], [strconv.ParseUint],
    [strconv.Atoi], on ASCII text and a 64-bit [int]); [strconv.ParseFloat],
    [json.Marshal] and the order of a range over a map are parameters. *)

From Stdlib Require Import ZArith Floats.PrimFloat Ascii.
From stdpp Require Import gmap strings list functions sorting.

#[local] Set Warnings "-clear-no-such-hyp".
#[local] Set Warnings "-notation-for-abbreviation".

(** ** Errors and results *)

Inductive Errno := ENOENT | EACCES | ENOTDIR | EISDIR | EIO.

Inductive error :=
  | PathError (op path : string) (errno : Errno)   (* *fs.PathError *)
  | NumError (func num : string) (range : bool)    (* *strconv.NumError *)
  | errorString (msg : string).                    (* fmt.Errorf, collaborators *)

Inductive Result (A : Type) :=
  | Ok (a : A)
  | Err (e : error).
Arguments Ok {A} a.
Arguments Err {A} e.

(** [os.IsNotExist]. *)
Definition os_IsNotExist (err : option error) : bool :=
  match err with
  | Some (PathError _ _ ENOENT) => true
  | _ => false
  end.

(** ** The parts of the Go standard library the monitor calls *)

(** [strings]: the ASCII white space table ([\t \n \v \f \r] and space).
    procfs and sysfs text is ASCII; a byte of 0x80 or more is an ordinary
    byte here. *)
Definition isSpace (c : ascii) : bool :=
  let n := N_of_ascii c in
  ((9 <=? n) && (n <=? 13) || (n =? 32))%N.

Definition bytes (s : string) : list ascii := String.list_ascii_of_string s.
Definition text (l : list ascii) : string := String.string_of_list_ascii l.

(** [strings.Fields]: the maximal runs of non-space bytes, in order.
    [cur] is the field being read, most recent byte first. *)
Fixpoint fieldsFrom (cur : list ascii) (s : list ascii) : list string :=
  match s with
  | [] => match cur with [] => [] | _ => [text (rev cur)] end
  | c :: s' =>
      if isSpace c then
        match cur with
        | [] => fieldsFrom [] s'
        | _ => text (rev cur) :: fieldsFrom [] s'
        end
      else fieldsFrom (c :: cur) s'
  end.

Definition strings_Fields (s : string) : list string := fieldsFrom [] (bytes s).

Fixpoint trimLeft (s : list ascii) : list ascii :=
  match s with
  | c :: s' => if isSpace c then trimLeft s' else s
  | [] => []
  end.

(** [strings.TrimSpace]. *)
Definition strings_TrimSpace (s : string) : string :=
  text (rev (trimLeft (rev (trimLeft (bytes s))))).

(** [strings.HasPrefix]. *)
Definition strings_HasPrefix (s prefix : string) : bool := String.prefix prefix s.

(** [strings.Split] with a one-byte separator: the pieces between the
    separators, empty pieces included. *)
Fixpoint splitFrom (sep : ascii) (cur : list ascii) (s : list ascii) : list string :=
  match s with
  | [] => [text (rev cur)]
  | c :: s' =>
      if Ascii.eqb c sep then text (rev cur) :: splitFrom sep [] s'
      else splitFrom sep (c :: cur) s'
  end.

Definition strings_Split (s : string) (sep : ascii) : list string :=
  splitFrom sep [] (bytes s).

(** [filepath.Join] of a directory and one entry name. The result of Go's
    [Join] is cleaned; a clean directory joined with the name of a directory
    entry is clean already. *)
Definition filepath_Join (dir name : string) : string := dir +:+ "/" +:+ name.

(** [bufio.Scanner] with the default split function [ScanLines].
    [rawLines] cuts the input at each newline; a last line without newline
    counts when it is not empty. *)
Fixpoint rawLinesFrom (cur : list ascii) (s : list ascii) : list (list ascii) :=
  match s with
  | [] => match cur with [] => [] | _ => [rev cur] end
  | c :: s' =>
      if Ascii.eqb c "010" then rev cur :: rawLinesFrom [] s'
      else rawLinesFrom (c :: cur) s'
  end.

Definition rawLines (data : string) : list (list ascii) := rawLinesFrom [] (bytes data).

(** [dropCR]: a line loses one trailing carriage return. *)
Definition dropCR (l : list ascii) : list ascii :=
  match rev l with
  | c :: r => if Ascii.eqb c "013" then rev r else l
  | [] => l
  end.

(** [bufio.MaxScanTokenSize]: the scanner gives up ([Scan] returns false,
    its error is [ErrTooLong]) at a line that does not fit its buffer. *)
Definition MaxScanTokenSize : nat := 64 * 1024.

Fixpoint scanWhileFits (ls : list (list ascii)) : list (list ascii) :=
  match ls with
  | [] => []
  | l :: ls' => if length l <? MaxScanTokenSize then l :: scanWhileFits ls' else []
  end.

(** The successive values of [scanner.Text()] while [scanner.Scan()] is true. *)
Definition scannerLines (data : string) : list string :=
  (fun l => text (dropCR l)) <$> scanWhileFits (rawLines data).

(** [strconv]: decimal digits. *)
Definition digitOf (c : ascii) : option Z :=
  let n := Z.of_N (N_of_ascii c) in
  if ((48 <=? n) && (n <=? 57))%Z then Some (n - 48)%Z else None.

Definition maxUint64 : Z := (2 ^ 64 - 1)%Z.

(** The digit loop of [strconv.ParseUint(s, 10, 64)]: [n] is the value read so
    far. A byte that is no digit is a syntax error; the loop stops with a
    range error as soon as the value leaves 64 bits, before it looks at the
    bytes that follow. *)
Inductive UintScan := UintValue (n : Z) | UintSyntax | UintRange.

Fixpoint parseUintLoop (n : Z) (s : list ascii) : UintScan :=
  match s with
  | [] => UintValue n
  | c :: s' =>
      match digitOf c with
      | None => UintSyntax
      | Some d =>
          if (maxUint64 / 10 + 1 <=? n)%Z then UintRange
          else
            let n1 := (n * 10 + d)%Z in
            if (maxUint64 <? n1)%Z then UintRange else parseUintLoop n1 s'
      end
  end.

(** [strconv.ParseUint(s, 10, 64)]: value and error, as Go returns both. *)
Definition strconv_ParseUint (s : string) : Z * option error :=
  match bytes s with
  | [] => (0%Z, Some (NumError "ParseUint" s false))
  | b =>
      match parseUintLoop 0 b with
      | UintValue n => (n, None)
      | UintSyntax => (0%Z, Some (NumError "ParseUint" s false))
      | UintRange => (maxUint64, Some (NumError "ParseUint" s true))
      end
  end.

(** The number a string of decimal digits denotes, after the digits that
    gave [acc]. *)
Fixpoint digitsValue (acc : Z) (ds : list ascii) : Z :=
  match ds with
  | [] => acc
  | c :: ds' => digitsValue (acc * 10 + default 0 (digitOf c))%Z ds'
  end.

(** [strconv.Atoi] on a 64-bit [int]: an optional sign, then digits. *)
Definition strconv_Atoi (s : string) : Result Z :=
  let b := bytes s in
  let '(neg, digits) :=
    match b with
    | c :: r => if Ascii.eqb c "-" then (true, r)
                else if Ascii.eqb c "+" then (false, r) else (false, b)
    | [] => (false, b)
    end in
  match digits with
  | [] => Err (NumError "Atoi" s false)
  | _ =>
      match parseUintLoop 0 digits with
      | UintValue n =>
          if neg then (if (2 ^ 63 <? n)%Z then Err (NumError "Atoi" s true) else Ok (- n)%Z)
          else (if (2 ^ 63 <=? n)%Z then Err (NumError "Atoi" s true) else Ok n)
      | UintSyntax => Err (NumError "Atoi" s false)
      | UintRange => Err (NumError "Atoi" s true)
      end
  end.

(** [strconv.Quote] of a plain string. *)
Definition quoted (s : string) : string :=
  String "034" (s +:+ String "034" EmptyString).

(** The text of [err.Error()], as the logger and [http.Error] print it. *)
Definition errnoText (e : Errno) : string :=
  match e with
  | ENOENT => "no such file or directory"
  | EACCES => "permission denied"
  | ENOTDIR => "not a directory"
  | EISDIR => "is a directory"
  | EIO => "input/output error"
  end.

Definition Error (e : error) : string :=
  match e with
  | PathError op path errno => op +:+ " " +:+ path +:+ ": " +:+ errnoText errno
  | NumError func num range =>
      "strconv." +:+ func +:+ ": parsing " +:+ quoted num +:+ ": "
      +:+ (if range then "value out of range" else "invalid syntax")
  | errorString msg => msg
  end.

(** ** The operating system as the monitor sees it *)

(** What [mem.VirtualMemory] and [disk.Usage] of gopsutil report (the fields
    the monitor reads). *)
Module VirtualMemoryStat.
Record t := mk {
  Total : Z;
  Available : Z;
  Used : Z;
  UsedPercent : float;
  Free : Z
}.
End VirtualMemoryStat.

Module UsageStat.
Record t := mk {
  Total : Z;
  Free : Z;
  Used : Z;
  UsedPercent : float
}.
End UsageStat.

(** One state of the host: what each OS interface answers. An unreadable
    or absent file answers with an error. *)
Record OS := {
  fs_read : string -> Result string;            (* ioutil.ReadFile; os.Open and read *)
  fs_readdir : string -> Result (list string);  (* ioutil.ReadDir: the entry names *)
  fs_stat : string -> option error;             (* os.Stat: the error, nil on success *)
  cpu_Percent : Result (list float);            (* cpu.Percent(0, false) *)
  mem_VirtualMemory : Result VirtualMemoryStat.t;
  disk_Usage : string -> Result UsageStat.t
}.

(** A line of the logger's output: level, format and argument. *)
Inductive Level := WarnLevel | ErrorLevel | InfoLevel.

Record LogEntry := {
  level : Level;
  format : string;
  arg : option error
}.

Record World := {
  os : OS;
  clock : Z;                 (* the instant [time.Now()] reads *)
  journal : list LogEntry
}.

(** ** The monad of OS-facing code *)

Definition IO (A : Type) : Type := World -> A * World.

Definition ret {A} (a : A) : IO A := fun w => (a, w).

Definition bind {A B} (m : IO A) (k : A -> IO B) : IO B :=
  fun w => let (a, w') := m w in k a w'.

Notation "'let*' x ':=' m 'in' k" := (bind m (fun x => k))
  (at level 10, x name, m at level 100, k at level 200, only parsing).

(** Every call into the OS takes time: the clock moves on. *)
Definition tick (w : World) : World :=
  {| os := os w; clock := (clock w + 1)%Z; journal := journal w |}.

Definition syscall {A} (f : OS -> A) : IO A := fun w => (f (os w), tick w).

Definition time_Now : IO Z := fun w => (clock w, w).

Definition log_Warnf (fmt : string) (e : error) : IO unit :=
  fun w =>
    (tt, {| os := os w; clock := clock w;
            journal := journal w ++ [{| level := WarnLevel; format := fmt; arg := Some e |}] |}).

Definition ioutil_ReadFile (path : string) : IO (Result string) :=
  syscall (fun o => fs_read o path).

(** [os.Open] followed by a [bufio.Scanner] over the file: the bytes the
    scanner will read. *)
Definition os_Open (path : string) : IO (Result string) :=
  syscall (fun o => fs_read o path).

Definition ioutil_ReadDir (path : string) : IO (Result (list string)) :=
  syscall (fun o => fs_readdir o path).

Definition os_Stat (path : string) : IO (option error) :=
  syscall (fun o => fs_stat o path).

(** *** What a computation does to the world *)

(** The world as a computation finds it when only the OS state matters. *)
Definition bare (o : OS) : World := {| os := o; clock := 0; journal := [] |}.

(** The value a computation returns on the OS state [o]. *)
Definition valueOn {A} (m : IO A) (o : OS) : A := fst (m (bare o)).

(** A sensor reader only reads: what it returns is a function of the OS
    state, it leaves the OS state and the journal alone, and time does not
    run backwards while it works. *)
Definition reader {A} (m : IO A) : Prop :=
  forall w,
    fst (m w) = valueOn m (os w)
    /\ os (snd (m w)) = os w
    /\ journal (snd (m w)) = journal w
    /\ (clock w <= clock (snd (m w)))%Z.

(** A computation that calls into the OS at least once: time has passed
    when it returns. *)
Definition ticking {A} (m : IO A) : Prop :=
  forall w, (clock w < clock (snd (m w)))%Z.

(** ** The data model of [monitor/system.go] *)

Module CPUStats.
Record t := mk {
  UsagePercent : float;
  LoadAverage : list float;
  Temperature : float;
  Frequency : float
}.
Definition zero : t := mk 0 [] 0 0.
End CPUStats.

Module MemStats.
Record t := mk {
  Total : Z;
  Used : Z;
  Free : Z;
  Available : Z;
  UsagePercent : float
}.
Definition zero : t := mk 0 0 0 0 0.
End MemStats.

Module DiskStats.
Record t := mk {
  Total : Z;
  Used : Z;
  Free : Z;
  UsagePercent : float;
  IORead : Z;
  IOWrite : Z
}.
Definition zero : t := mk 0 0 0 0 0 0.
End DiskStats.

Module TempStats.
Record t := mk {
  CPU : float;
  GPU : float;
  Board : float;
  Ambient : float
}.
Definition zero : t := mk 0 0 0 0.
End TempStats.

Module GPIOState.
Record t := mk {
  Pin : string;
  Value : Z;
  Mode : string
}.
End GPIOState.

Module GPIOStats.
Record t := mk {
  Pins : gmap string GPIOState.t
}.
Definition zero : t := mk empty.
End GPIOStats.

Module SystemStats.
Record t := mk {
  Timestamp : Z;
  CPU : CPUStats.t;
  Memory : MemStats.t;
  Disk : DiskStats.t;
  Temperature : TempStats.t;
  GPIO : GPIOStats.t
}.
End SystemStats.

Module DiskIOStats.
Record t := mk {
  Read : Z;
  Write : Z
}.
Definition zero : t := mk 0 0.
End DiskIOStats.

(** Field updates, as the assignments [stats.F = v] of the source. *)
Definition setUsagePercent (v : float) (s : CPUStats.t) : CPUStats.t :=
  CPUStats.mk v (CPUStats.LoadAverage s) (CPUStats.Temperature s) (CPUStats.Frequency s).
Definition setLoadAverage (v : list float) (s : CPUStats.t) : CPUStats.t :=
  CPUStats.mk (CPUStats.UsagePercent s) v (CPUStats.Temperature s) (CPUStats.Frequency s).
Definition setFrequency (v : float) (s : CPUStats.t) : CPUStats.t :=
  CPUStats.mk (CPUStats.UsagePercent s) (CPUStats.LoadAverage s) (CPUStats.Temperature s) v.

Definition setIO (io : DiskIOStats.t) (s : DiskStats.t) : DiskStats.t :=
  DiskStats.mk (DiskStats.Total s) (DiskStats.Used s) (DiskStats.Free s)
    (DiskStats.UsagePercent s) (DiskIOStats.Read io) (DiskIOStats.Write io).

Definition setCPU (v : CPUStats.t) (s : SystemStats.t) : SystemStats.t :=
  SystemStats.mk (SystemStats.Timestamp s) v (SystemStats.Memory s) (SystemStats.Disk s)
    (SystemStats.Temperature s) (SystemStats.GPIO s).
Definition setMemory (v : MemStats.t) (s : SystemStats.t) : SystemStats.t :=
  SystemStats.mk (SystemStats.Timestamp s) (SystemStats.CPU s) v (SystemStats.Disk s)
    (SystemStats.Temperature s) (SystemStats.GPIO s).
Definition setDisk (v : DiskStats.t) (s : SystemStats.t) : SystemStats.t :=
  SystemStats.mk (SystemStats.Timestamp s) (SystemStats.CPU s) (SystemStats.Memory s) v
    (SystemStats.Temperature s) (SystemStats.GPIO s).
Definition setTemperature (v : TempStats.t) (s : SystemStats.t) : SystemStats.t :=
  SystemStats.mk (SystemStats.Timestamp s) (SystemStats.CPU s) (SystemStats.Memory s)
    (SystemStats.Disk s) v (SystemStats.GPIO s).
Definition setGPIO (v : GPIOStats.t) (s : SystemStats.t) : SystemStats.t :=
  SystemStats.mk (SystemStats.Timestamp s) (SystemStats.CPU s) (SystemStats.Memory s)
    (SystemStats.Disk s) (SystemStats.Temperature s) v.

(** [fields[i]]. Every index expression of the source stands behind a test
    of [len(fields)], so the default is never taken (see [index_in_range]). *)
Definition index (fields : list string) (i : nat) : string :=
  default EmptyString (fields !! i).

(** The sensor table of [getTemperatureStats]: a Go map, given by its
    entries. *)
Definition tempPaths : list (string * string) :=
  [ ("cpu", "/sys/class/thermal/thermal_zone0/temp");
    ("gpu", "/sys/class/thermal/thermal_zone1/temp");
    ("board", "/sys/class/thermal/thermal_zone2/temp");
    ("ambient", "/sys/class/thermal/thermal_zone3/temp") ].

Definition gpioPath : string := "/sys/class/gpio".

(** The [switch sensor] of [getTemperatureStats]. *)
Definition assignSensor (sensor : string) (temp : float) (s : TempStats.t) : TempStats.t :=
  if String.eqb sensor "cpu" then
    TempStats.mk temp (TempStats.GPU s) (TempStats.Board s) (TempStats.Ambient s)
  else if String.eqb sensor "gpu" then
    TempStats.mk (TempStats.CPU s) temp (TempStats.Board s) (TempStats.Ambient s)
  else if String.eqb sensor "board" then
    TempStats.mk (TempStats.CPU s) (TempStats.GPU s) temp (TempStats.Ambient s)
  else if String.eqb sensor "ambient" then
    TempStats.mk (TempStats.CPU s) (TempStats.GPU s) (TempStats.Board s) temp
  else s.

(** The test of [readDiskIO] on one line's fields. *)
Definition isDiskLine (fields : list string) : bool :=
  (14 <=? length fields)
  && (String.eqb (index fields 2) "sda" || String.eqb (index fields 2) "mmcblk0").

(** The scan loop of [readDiskIO] over the scanner's lines. The errors of
    [ParseUint] are dropped ([reads, _ := ...]); its values are kept. *)
Fixpoint diskstatsLoop (lines : list string) : DiskIOStats.t :=
  match lines with
  | [] => DiskIOStats.zero
  | line :: rest =>
      let fields := strings_Fields line in
      if isDiskLine fields then
        let reads := fst (strconv_ParseUint (index fields 3)) in
        let writes := fst (strconv_ParseUint (index fields 7)) in
        DiskIOStats.mk reads writes
      else diskstatsLoop rest
  end.

(** [readDiskIO]. *)
Definition readDiskIO : IO (Result DiskIOStats.t) :=
  let* file := os_Open "/proc/diskstats" in
  match file with
  | Err err => ret (Err err)
  | Ok data => ret (Ok (diskstatsLoop (scannerLines data)))
  end.

(** [readGPIOState]: value, mode and error, as Go returns the three. *)
Definition readGPIOState (gpioPath : string) : IO (Z * string * option error) :=
  let directionPath := filepath_Join gpioPath "direction" in
  let* direction := ioutil_ReadFile directionPath in
  match direction with
  | Err err => ret (0%Z, EmptyString, Some err)
  | Ok direction =>
      let mode := strings_TrimSpace direction in
      let valuePath := filepath_Join gpioPath "value" in
      let* valueData := ioutil_ReadFile valuePath in
      match valueData with
      | Err err => ret (0%Z, mode, Some err)
      | Ok valueData =>
          match strconv_Atoi (strings_TrimSpace valueData) with
          | Err err => ret (0%Z, mode, Some err)
          | Ok value => ret (value, mode, None)
          end
      end
  end.

(** The loop of [getGPIOStats] over the directory entries. *)
Fixpoint gpioLoop (files : list string) (pins : gmap string GPIOState.t)
  : IO (gmap string GPIOState.t) :=
  match files with
  | [] => ret pins
  | pinName :: rest =>
      if strings_HasPrefix pinName "gpio" then
        let* r := readGPIOState (filepath_Join gpioPath pinName) in
        match r with
        | (value, mode, None) =>
            gpioLoop rest (<[pinName := GPIOState.mk pinName value mode]> pins)
        | (_, _, Some _) => gpioLoop rest pins
        end
      else gpioLoop rest pins
  end.

(** [getGPIOStats]. *)
Definition getGPIOStats : IO (Result GPIOStats.t) :=
  let* err := os_Stat gpioPath in
  if os_IsNotExist err then ret (Ok (GPIOStats.mk empty))
  else
    let* files := ioutil_ReadDir gpioPath in
    match files with
    | Ok files =>
        let* pins := gpioLoop files empty in
        ret (Ok (GPIOStats.mk pins))
    | Err _ => ret (Ok (GPIOStats.mk empty))
    end.

(** [getMemoryStats]. *)
Definition getMemoryStats : IO (Result MemStats.t) :=
  let* vmstat := syscall mem_VirtualMemory in
  match vmstat with
  | Err err => ret (Err err)
  | Ok vmstat =>
      ret (Ok (MemStats.mk (VirtualMemoryStat.Total vmstat) (VirtualMemoryStat.Used vmstat)
                 (VirtualMemoryStat.Free vmstat) (VirtualMemoryStat.Available vmstat)
                 (VirtualMemoryStat.UsedPercent vmstat)))
  end.

(** [getDiskStats]. *)
Definition getDiskStats : IO (Result DiskStats.t) :=
  let* usage := syscall (fun o => disk_Usage o "/") in
  match usage with
  | Err err => ret (Err err)
  | Ok usage =>
      let stats := DiskStats.mk (UsageStat.Total usage) (UsageStat.Used usage)
                     (UsageStat.Free usage) (UsageStat.UsedPercent usage) 0 0 in
      let* ioStats := readDiskIO in
      match ioStats with
      | Ok ioStats => ret (Ok (setIO ioStats stats))
      | Err _ => ret (Ok stats)
      end
  end.

(** *** Vocabulary for the snapshot *)

(** What a family contributes to the snapshot: the reader's value, or the
    zero value of the family when the reader failed. *)
Definition absorb {A} (zero : A) (r : Result A) : A :=
  match r with
  | Ok v => v
  | Err _ => zero
  end.

(** The warning [GetSystemStats] logs for a family whose reader failed. *)
Definition warning {A} (fmt : string) (r : Result A) : list LogEntry :=
  match r with
  | Ok _ => []
  | Err err => [{| level := WarnLevel; format := fmt; arg := Some err |}]
  end.

Section Monitor.

(** [strconv.ParseFloat(s, 64)], of the Go standard library: the parsed
    value, or a syntax or range error. *)
Variable strconv_ParseFloat : string -> Result float.

(** The order in which [range tempPaths] yields the entries of the map. *)
Variable rangeTempPaths : list (string * string).

(** The loop of [readLoadAverage]: [loads[i]] is assigned for [i] from [i]
    on, [n] times. *)
Fixpoint loadsLoop (n i : nat) (fields : list string) (loads : list float)
  : Result (list float) :=
  match n with
  | O => Ok loads
  | S n' =>
      match strconv_ParseFloat (index fields i) with
      | Err err => Err err
      | Ok v => loadsLoop n' (S i) fields (<[i := v]> loads)
      end
  end.

(** [readLoadAverage]. *)
Definition readLoadAverage : IO (Result (list float)) :=
  let* data := ioutil_ReadFile "/proc/loadavg" in
  match data with
  | Err err => ret (Err err)
  | Ok data =>
      let fields := strings_Fields data in
      if length fields <? 3 then ret (Err (errorString "invalid loadavg format"))
      else ret (loadsLoop 3 0 fields (replicate 3 0%float))
  end.

(** The scan loop of [readCPUFrequency]. *)
Fixpoint cpuinfoLoop (lines : list string) : Result float :=
  match lines with
  | [] => Err (errorString "cpu frequency not found")
  | line :: rest =>
      if strings_HasPrefix line "cpu MHz" then
        let parts := strings_Split line ":" in
        if length parts =? 2 then
          match strconv_ParseFloat (strings_TrimSpace (index parts 1)) with
          | Ok freq => Ok freq
          | Err _ => cpuinfoLoop rest
          end
        else cpuinfoLoop rest
      else cpuinfoLoop rest
  end.

(** [readCPUFrequency]. *)
Definition readCPUFrequency : IO (Result float) :=
  let* file := os_Open "/proc/cpuinfo" in
  match file with
  | Err err => ret (Err err)
  | Ok data => ret (cpuinfoLoop (scannerLines data))
  end.

(** [readTemperature]. *)
Definition readTemperature (path : string) : IO (Result float) :=
  let* data := ioutil_ReadFile path in
  match data with
  | Err err => ret (Err err)
  | Ok data =>
      let tempStr := strings_TrimSpace data in
      match strconv_ParseFloat tempStr with
      | Err err => ret (Err err)
      | Ok temp => ret (Ok (temp / 1000)%float)
      end
  end.

(** [getCPUStats]. *)
Definition getCPUStats : IO (Result CPUStats.t) :=
  let stats := CPUStats.zero in
  let* usage := syscall cpu_Percent in
  let stats :=
    match usage with
    | Ok (usage0 :: _) => setUsagePercent usage0 stats
    | _ => stats
    end in
  let* loadAvg := readLoadAverage in
  let stats :=
    match loadAvg with
    | Ok loadAvg => setLoadAverage loadAvg stats
    | Err _ => stats
    end in
  let* freq := readCPUFrequency in
  let stats :=
    match freq with
    | Ok freq => setFrequency freq stats
    | Err _ => stats
    end in
  ret (Ok stats).

(** The loop of [getTemperatureStats] over the entries in the order given. *)
Fixpoint tempLoop (entries : list (string * string)) (stats : TempStats.t)
  : IO TempStats.t :=
  match entries with
  | [] => ret stats
  | (sensor, path) :: rest =>
      let* r := readTemperature path in
      match r with
      | Ok temp => tempLoop rest (assignSensor sensor temp stats)
      | Err _ => tempLoop rest stats
      end
  end.

(** [getTemperatureStats]. *)
Definition getTemperatureStats : IO (Result TempStats.t) :=
  let* stats := tempLoop rangeTempPaths TempStats.zero in
  ret (Ok stats).

(** One family of [GetSystemStats]: keep the reader's value, or log the
    reader's error and leave the snapshot as it is. *)
Definition collect {A} (get : IO (Result A)) (fmt : string)
    (assign : A -> SystemStats.t -> SystemStats.t) (stats : SystemStats.t)
  : IO SystemStats.t :=
  let* r := get in
  match r with
  | Ok v => ret (assign v stats)
  | Err err => let* _ := log_Warnf fmt err in ret stats
  end.

(** [GetSystemStats]. *)
Definition GetSystemStats : IO (Result SystemStats.t) :=
  let* now := time_Now in
  let stats :=
    SystemStats.mk now CPUStats.zero MemStats.zero DiskStats.zero TempStats.zero
      GPIOStats.zero in
  let* stats := collect getCPUStats "Failed to get CPU stats: %v" setCPU stats in
  let* stats := collect getMemoryStats "Failed to get memory stats: %v" setMemory stats in
  let* stats := collect getDiskStats "Failed to get disk stats: %v" setDisk stats in
  let* stats := collect getTemperatureStats "Failed to get temperature stats: %v"
              setTemperature stats in
  let* stats := collect getGPIOStats "Failed to get GPIO stats: %v" setGPIO stats in
  ret (Ok stats).

(** What one turn of the loop of [getTemperatureStats] does to the
    statistics, given what the sensor file holds. *)
Definition tempTurn (o : OS) (stats : TempStats.t) (entry : string * string) : TempStats.t :=
  match valueOn (readTemperature entry.2) o with
  | Ok temp => assignSensor entry.1 temp stats
  | Err _ => stats
  end.

(** What a sensor contributes: its reading, or zero when it cannot be read. *)
Definition sensorValue (o : OS) (path : string) : float :=
  absorb 0%float (valueOn (readTemperature path) o).

End Monitor.

(** ** Specification vocabulary for the monitor *)

(** The entry [getGPIOStats] stores for a pin: present exactly when
    [readGPIOState] returns no error for it. *)
Definition pinOf (o : OS) (name : string) : option GPIOState.t :=
  match valueOn (readGPIOState (filepath_Join gpioPath name)) o with
  | (value, mode, None) => Some (GPIOState.mk name value mode)
  | (_, _, Some _) => None
  end.

(** The first line of the scanner's output that [readDiskIO] accepts. *)
Definition firstDiskLine (data : string) (line : string) : Prop :=
  exists before after,
    scannerLines data = before ++ line :: after
    /\ isDiskLine (strings_Fields line) = true
    /\ forall l, l ∈ before -> isDiskLine (strings_Fields l) = false.

(** A line of /proc/cpuinfo that [readCPUFrequency] passes over: it does not
    start with "cpu MHz", or it does not split at its colons into two parts,
    or its second part is no number. *)
Definition passedOver (ParseFloat : string -> Result float) (line : string) : Prop :=
  strings_HasPrefix line "cpu MHz" = false
  \/ length (strings_Split line ":") <> 2
  \/ exists err,
       ParseFloat (strings_TrimSpace (index (strings_Split line ":") 1)) = Err err.

(** [usage[0]] when [cpu.Percent] returned no error and a non-empty slice. *)
Definition firstUsage (usage : Result (list float)) : float :=
  match usage with
  | Ok (usage0 :: _) => usage0
  | _ => 0%float
  end.


(** ** The web adapter: [web/server.go] *)

(** A [*websocket.Conn], by its identity. *)
Definition Conn := nat.

(** What the server can observe of one connection: whether it was closed on
    the server side, whether the peer can still be written to, and the
    snapshots the peer has received so far. *)
Record ConnState := {
  closed : bool;
  peerGone : bool;
  received : list SystemStats.t
}.

Definition newConn : ConnState :=
  {| closed := false; peerGone := false; received := [] |}.

(** The web server with the world it runs in: [ws.clients], the
    connections, and the monitor's world (clock and journal included). *)
Record WebServer := {
  clients : gmap Conn bool;
  net : gmap Conn ConnState;
  world : World
}.

Definition setWorld (w : World) (ws : WebServer) : WebServer :=
  {| clients := clients ws; net := net ws; world := w |}.

Definition log_Errorf (fmt : string) (e : error) (w : World) : World :=
  {| os := os w; clock := clock w;
     journal := journal w ++ [{| level := ErrorLevel; format := fmt; arg := Some e |}] |}.

(** An HTTP response as the client sees it. *)
Record Response := {
  status : Z;
  contentType : string;
  body : string
}.

Definition newline : string := String "010" EmptyString.

(** The program points of the goroutines of [web/server.go], named by the
    line each is about to execute. *)
Inductive HandlerPC :=
  | HIdle        (* no such connection yet *)
  | HLock        (* 74: ws.mu.Lock() *)
  | HInsert      (* 75: ws.clients[conn] = true, holding the lock *)
  | HUnlock      (* 76: ws.mu.Unlock() *)
  | RRead        (* 92: conn.ReadMessage() in the loop of the goroutine *)
  | RClose       (* 83: conn.Close() *)
  | RLock        (* 84: ws.mu.Lock() *)
  | RDelete      (* 85: delete(ws.clients, conn), holding the lock *)
  | RUnlock      (* 86: ws.mu.Unlock() *)
  | RDone.

Inductive BroadcastPC :=
  | BWait                                                (* 116: range ticker.C *)
  | BRLock (stats : SystemStats.t)                       (* 123: ws.mu.RLock() *)
  | BRange (stats : SystemStats.t) (todo : list Conn)    (* 124-131, holding the read lock *)
  | BRUnlock.                                            (* 132: ws.mu.RUnlock() *)

(** [sync.RWMutex]: one writer or any number of readers. *)
Record RWMutex := {
  writer : bool;
  readers : nat
}.

(** The server and its goroutines: the one broadcaster that [Start] spawns,
    and per connection the handler and then the goroutine that waits for the
    disconnect. *)
Record Hub := {
  server : WebServer;
  mu : RWMutex;
  bpc : BroadcastPC;
  hpc : Conn -> HandlerPC
}.

Inductive Goroutine :=
  | Broadcaster
  | Handler (c : Conn).

(** The goroutine is about to change the structure of [ws.clients]. *)
Definition mutating (h : Hub) (g : Goroutine) : Prop :=
  match g with
  | Broadcaster => exists stats c todo, bpc h = BRange stats (c :: todo)
  | Handler c => hpc h c = HInsert \/ hpc h c = RDelete
  end.

(** The goroutine is reading, iterating over or changing [ws.clients]. *)
Definition accessing (h : Hub) (g : Goroutine) : Prop :=
  match g with
  | Broadcaster => exists stats todo, bpc h = BRange stats todo
  | Handler c => hpc h c = HInsert \/ hpc h c = RDelete
  end.

(** The goroutine holds the write lock of [ws.mu]. *)
Definition holdsWrite (pc : HandlerPC) : bool :=
  match pc with
  | HInsert | HUnlock | RDelete | RUnlock => true
  | _ => false
  end.

(** The broadcaster holds the read lock of [ws.mu]. *)
Definition holdsRead (pc : BroadcastPC) : bool :=
  match pc with
  | BRange _ _ | BRUnlock => true
  | _ => false
  end.

(** The mutex agrees with the program points: the broadcaster is the only
    reader there is, a handler inside its critical section holds the mutex
    alone, and no two handlers are inside at once. *)
Definition lockInv (h : Hub) : Prop :=
  readers (mu h) = (if holdsRead (bpc h) then 1 else 0)
  /\ (forall c, holdsWrite (hpc h c) = true -> writer (mu h) = true /\ readers (mu h) = 0)
  /\ (forall c1 c2, holdsWrite (hpc h c1) = true -> holdsWrite (hpc h c2) = true -> c1 = c2).

Section Web.

Variable strconv_ParseFloat : string -> Result float.
Variable rangeTempPaths : list (string * string).

(** [json.Marshal] of a snapshot: the JSON text, or the encoder's error
    (a float that JSON cannot represent). *)
Variable json_Marshal : SystemStats.t -> Result string.

(** What [json.NewEncoder(w).Encode(stats)] writes to [w]: the JSON text and
    a newline, or nothing when the value cannot be encoded. *)
Definition json_Encode (stats : SystemStats.t) : string :=
  match json_Marshal stats with
  | Ok j => j +:+ newline
  | Err _ => EmptyString
  end.

(** [handleStats], over the monitor it asks. *)
Definition handleStatsOf (monitor_GetSystemStats : IO (Result SystemStats.t)) : IO Response :=
  let* r := monitor_GetSystemStats in
  match r with
  | Err err =>
      (* http.Error(w, err.Error(), http.StatusInternalServerError) *)
      ret {| status := 500; contentType := "text/plain; charset=utf-8";
             body := Error err +:+ newline |}
  | Ok stats =>
      ret {| status := 200; contentType := "application/json";
             body := json_Encode stats |}
  end.

(** [handleStats]: [ws.monitor] is the system monitor. *)
Definition handleStats : IO Response :=
  handleStatsOf (GetSystemStats strconv_ParseFloat rangeTempPaths).

(** [client.WriteJSON(stats)]: fails on a connection that is closed or whose
    peer is gone, and on a value JSON cannot encode; otherwise the peer
    receives the snapshot. *)
Definition conn_WriteJSON (client : Conn) (stats : SystemStats.t)
    (net : gmap Conn ConnState) : option error * gmap Conn ConnState :=
  match net !! client with
  | None => (Some (errorString "use of closed network connection"), net)
  | Some st =>
      if closed st || peerGone st then
        (Some (errorString "use of closed network connection"), net)
      else
        match json_Marshal stats with
        | Err err => (Some err, net)
        | Ok _ =>
            (None, <[client := {| closed := false; peerGone := false;
                                  received := received st ++ [stats] |}]> net)
        end
  end.

(** [WriteJSON] to this client succeeds. *)
Definition delivers (stats : SystemStats.t) (ws : WebServer) (c : Conn) : Prop :=
  fst (conn_WriteJSON c stats (net ws)) = None.

(** [conn.Close()]. *)
Definition conn_Close (client : Conn) (net : gmap Conn ConnState) : gmap Conn ConnState :=
  match net !! client with
  | None => net
  | Some st =>
      <[client := {| closed := true; peerGone := peerGone st; received := received st |}]> net
  end.

(** The body of the loop [for client := range ws.clients] (lines 125-130). *)
Definition deliver (client : Conn) (stats : SystemStats.t) (ws : WebServer) : WebServer :=
  let (err, net1) := conn_WriteJSON client stats (net ws) in
  match err with
  | None => {| clients := clients ws; net := net1; world := world ws |}
  | Some err =>
      {| clients := delete client (clients ws);
         net := conn_Close client net1;
         world := log_Errorf "Failed to send stats to client: %v" err (world ws) |}
  end.

(** The loop itself, for the order [todo] in which the range yields the
    keys. A key deleted before the range reaches it is not produced. *)
Fixpoint rangeClients (todo : list Conn) (stats : SystemStats.t) (ws : WebServer)
  : WebServer :=
  match todo with
  | [] => ws
  | client :: rest =>
      match clients ws !! client with
      | None => rangeClients rest stats ws
      | Some _ => rangeClients rest stats (deliver client stats ws)
      end
  end.

(** One turn of the loop of [broadcastStats] (lines 117-132), run without
    interleaving; [order] is the order of the range over [ws.clients]. *)
Definition broadcastTick (order : list Conn) (ws : WebServer) : WebServer :=
  let (r, w) := GetSystemStats strconv_ParseFloat rangeTempPaths (world ws) in
  match r with
  | Err err => setWorld (log_Errorf "Failed to get system stats: %v" err w) ws
  | Ok stats => rangeClients order stats (setWorld w ws)
  end.

(** *** The goroutines, one step at a time *)

Definition setHandler (c : Conn) (pc : HandlerPC) (h : Hub) : Conn -> HandlerPC :=
  <[c := pc]> (hpc h).

(** A range over [ws.clients] yields each key once, in some order. *)
Definition rangeOrder (m : gmap Conn bool) (order : list Conn) : Prop :=
  NoDup order /\ forall c, c ∈ order <-> is_Some (m !! c).

Inductive step : Hub -> Hub -> Prop :=
  (* handleWebSocket: the upgrade succeeded, a new connection exists *)
  | step_upgrade h c :
      hpc h c = HIdle ->
      net (server h) !! c = None ->
      step h {| server := {| clients := clients (server h);
                             net := <[c := newConn]> (net (server h));
                             world := world (server h) |};
                mu := mu h; bpc := bpc h; hpc := setHandler c HLock h |}
  (* 74: Lock() returns once no reader and no writer holds the mutex *)
  | step_h_lock h c :
      hpc h c = HLock ->
      writer (mu h) = false -> readers (mu h) = 0 ->
      step h {| server := server h; mu := {| writer := true; readers := 0 |};
                bpc := bpc h; hpc := setHandler c HInsert h |}
  (* 75 *)
  | step_h_insert h c :
      hpc h c = HInsert ->
      step h {| server := {| clients := <[c := true]> (clients (server h));
                             net := net (server h); world := world (server h) |};
                mu := mu h; bpc := bpc h; hpc := setHandler c HUnlock h |}
  (* 76, then the goroutine of lines 81-96 starts *)
  | step_h_unlock h c :
      hpc h c = HUnlock ->
      step h {| server := server h;
                mu := {| writer := false; readers := readers (mu h) |};
                bpc := bpc h; hpc := setHandler c RRead h |}
  (* 92: ReadMessage returns an error, the loop breaks *)
  | step_r_read h c :
      hpc h c = RRead ->
      step h {| server := server h; mu := mu h; bpc := bpc h;
                hpc := setHandler c RClose h |}
  (* 83 *)
  | step_r_close h c :
      hpc h c = RClose ->
      step h {| server := {| clients := clients (server h);
                             net := conn_Close c (net (server h));
                             world := world (server h) |};
                mu := mu h; bpc := bpc h; hpc := setHandler c RLock h |}
  (* 84 *)
  | step_r_lock h c :
      hpc h c = RLock ->
      writer (mu h) = false -> readers (mu h) = 0 ->
      step h {| server := server h; mu := {| writer := true; readers := 0 |};
                bpc := bpc h; hpc := setHandler c RDelete h |}
  (* 85 *)
  | step_r_delete h c :
      hpc h c = RDelete ->
      step h {| server := {| clients := delete c (clients (server h));
                             net := net (server h); world := world (server h) |};
                mu := mu h; bpc := bpc h; hpc := setHandler c RUnlock h |}
  (* 86 *)
  | step_r_unlock h c :
      hpc h c = RUnlock ->
      step h {| server := server h;
                mu := {| writer := false; readers := readers (mu h) |};
                bpc := bpc h; hpc := setHandler c RDone h |}
  (* the peer of a connection goes away *)
  | step_peer_gone h c st :
      net (server h) !! c = Some st ->
      step h {| server := {| clients := clients (server h);
                             net := <[c := {| closed := closed st; peerGone := true;
                                              received := received st |}]> (net (server h));
                             world := world (server h) |};
                mu := mu h; bpc := bpc h; hpc := hpc h |}
  (* 116-121: a tick arrives and the snapshot is built *)
  | step_b_tick h :
      bpc h = BWait ->
      step h
        (let (r, w) := GetSystemStats strconv_ParseFloat rangeTempPaths (world (server h)) in
         match r with
         | Err err =>
             {| server := setWorld (log_Errorf "Failed to get system stats: %v" err w) (server h);
                mu := mu h; bpc := BWait; hpc := hpc h |}
         | Ok stats =>
             {| server := setWorld w (server h); mu := mu h; bpc := BRLock stats;
                hpc := hpc h |}
         end)
  (* 123: RLock() returns once no writer holds the mutex; the range starts *)
  | step_b_rlock h stats order :
      bpc h = BRLock stats ->
      writer (mu h) = false ->
      rangeOrder (clients (server h)) order ->
      step h {| server := server h;
                mu := {| writer := false; readers := S (readers (mu h)) |};
                bpc := BRange stats order; hpc := hpc h |}
  (* 124-131: one turn of the range *)
  | step_b_range h stats c todo :
      bpc h = BRange stats (c :: todo) ->
      step h {| server := rangeClients [c] stats (server h); mu := mu h;
                bpc := BRange stats todo; hpc := hpc h |}
  (* the range is over *)
  | step_b_range_end h stats :
      bpc h = BRange stats [] ->
      step h {| server := server h; mu := mu h; bpc := BRUnlock; hpc := hpc h |}
  (* 132 *)
  | step_b_runlock h :
      bpc h = BRUnlock ->
      step h {| server := server h;
                mu := {| writer := writer (mu h); readers := pred (readers (mu h)) |};
                bpc := BWait; hpc := hpc h |}.

End Web.

(** The server as [NewWebServer] builds it and [Start] launches it: no
    client, no connection, the mutex free, the broadcaster waiting for its
    first tick. *)
Definition initial (w : World) : Hub :=
  {| server := {| clients := empty; net := empty; world := w |};
     mu := {| writer := false; readers := 0 |};
     bpc := BWait;
     hpc := fun _ => HIdle |}.

(** *** Vocabulary for the life of a connection *)

(** The program points at which a connection can be in [ws.clients]: after
    the insert of line 75 and before the delete of line 85. *)
Definition mayBeRegistered (pc : HandlerPC) : bool :=
  match pc with
  | HUnlock | RRead | RClose | RLock | RDelete => true
  | _ => false
  end.

(** The program points after [conn.Close()] of line 83. *)
Definition pastClose (pc : HandlerPC) : bool :=
  match pc with
  | RLock | RDelete | RUnlock | RDone => true
  | _ => false
  end.

(** A connection that no snapshot can be written to any more. *)
Definition dead (st : ConnState) : bool := closed st || peerGone st.

(** The registry and the connections agree with the program points. *)
Definition registryInv (h : Hub) : Prop :=
  forall c,
    (is_Some (clients (server h) !! c) -> mayBeRegistered (hpc h c) = true)
    /\ (hpc h c = HIdle <-> net (server h) !! c = None)
    /\ (pastClose (hpc h c) = true ->
        exists st, net (server h) !! c = Some st /\ closed st = true).

(** The stamps of the snapshots a peer has received, oldest first. *)
Definition stamps (st : ConnState) : list Z := SystemStats.Timestamp <$> received st.

(** What the broadcaster's program point says about the stamps: every peer
    has them in increasing order and none is from the future; the snapshot
    of the tick under way is newer than whatever a client still to be
    served has received. *)
Definition stampsInv (h : Hub) : Prop :=
  let now := clock (world (server h)) in
  (forall c st,
      net (server h) !! c = Some st ->
      StronglySorted Z.lt (stamps st) /\ Forall (fun t => t < now)%Z (stamps st))
  /\ match bpc h with
     | BRLock stats =>
         (SystemStats.Timestamp stats < now)%Z
         /\ forall c st,
             net (server h) !! c = Some st ->
             Forall (fun t => t < SystemStats.Timestamp stats)%Z (stamps st)
     | BRange stats todo =>
         (SystemStats.Timestamp stats < now)%Z
         /\ NoDup todo
         /\ forall c st,
             net (server h) !! c = Some st ->
             Forall (fun t => t <= SystemStats.Timestamp stats)%Z (stamps st)
             /\ (c ∈ todo ->
                 Forall (fun t => t < SystemStats.Timestamp stats)%Z (stamps st))
     | _ => True
     end.


(** ** The terminal adapter: [terminal/ui.go] *)

(** Arithmetic on [uint64] and on [int] wraps around. *)
Definition uint64 (n : Z) : Z := (n mod 2 ^ 64)%Z.
Definition toInt (n : Z) : Z := ((n + 2 ^ 63) mod 2 ^ 64 - 2 ^ 63)%Z.

(** A call of [fmt.Sprintf], by its format and its arguments; [ArgRatio n d]
    is the argument [float64(n)/float64(d)]. *)
Inductive Arg :=
  | ArgString (s : string)
  | ArgInt (n : Z)
  | ArgFloat (f : float)
  | ArgChar (c : ascii)
  | ArgRatio (num den : Z).

Inductive Text :=
  | Literal (s : string)
  | Sprintf (format : string) (args : list Arg).

(** The colours of [tcell] the adapter draws with. *)
Inductive Color :=
  ColorGreen | ColorYellow | ColorOrange | ColorRed | ColorGray | ColorWhite.

(** A call [tui.drawText(x, y, text, fg, tcell.ColorDefault, style)]; the
    style is the default one, bold or not. *)
Record DrawText := drawText {
  textX : Z;
  textY : Z;
  shown : Text;
  fg : Color;
  bold : bool
}.

(** How a Go function ends: it returns, it panics, or the run given to it
    here was too short to see it end. *)
Inductive Outcome (A : Type) :=
  | Returns (a : A)
  | Panics
  | Unfinished.
Arguments Returns {A} a.
Arguments Panics {A}.
Arguments Unfinished {A}.

(** The loop of [formatBytes] (lines 329-332), for at most [fuel] turns. *)
Fixpoint formatBytesLoop (fuel : nat) (n div : Z) (exp : nat) : option (Z * nat) :=
  if (1024 <=? n)%Z then
    match fuel with
    | O => None
    | S fuel' => formatBytesLoop fuel' (n / 1024)%Z (uint64 (div * 1024)) (S exp)
    end
  else Some (div, exp).

(** [formatBytes]; the index expression panics out of range. *)
Definition formatBytes (bytes : Z) : Outcome Text :=
  if (bytes <? 1024)%Z then Returns (Sprintf "%d B" [ArgInt bytes])
  else
    match formatBytesLoop 64 (bytes / 1024)%Z 1024 0 with
    | None => Unfinished
    | Some (div, exp) =>
        match String.list_ascii_of_string "KMGTPE" !! exp with
        | None => Panics
        | Some unit => Returns (Sprintf "%.1f %cB" [ArgRatio bytes div; ArgChar unit])
        end
    end.



(** The line [drawGPIO] draws for one pin at [row]. *)
Definition drawPin (x y row : Z) (pinName : string) (pinData : GPIOState.t) : DrawText :=
  let pinText :=
    Sprintf "%s: %d (%s)"
      [ArgString pinName; ArgInt (GPIOState.Value pinData);
       ArgString (GPIOState.Mode pinData)] in
  let color := if (GPIOState.Value pinData =? 1)%Z then ColorGreen else ColorRed in
  drawText x (toInt (y + row)) pinText color false.

(** The loop of [drawGPIO] (lines 256-269) over the pins in the order
    [range gpio.Pins] yields them. *)
Fixpoint drawGPIOLoop (x y row : Z) (pins : list (string * GPIOState.t)) : list DrawText :=
  match pins with
  | [] => []
  | (pinName, pinData) :: rest =>
      if (8 <=? row)%Z then []
      else drawPin x y row pinName pinData :: drawGPIOLoop x y (toInt (row + 1)) rest
  end.

(** [drawGPIO]: the calls of [drawText], in order. *)
Definition drawGPIO (rangePins : list (string * GPIOState.t)) (gpio : GPIOStats.t)
    (x y width : Z) : list DrawText :=
  drawText x y (Literal "GPIO Status") ColorYellow true
  :: (if size (GPIOStats.Pins gpio) =? 0 then
        [drawText x (toInt (y + 1)) (Literal "No GPIO data") ColorGray false]
      else drawGPIOLoop x y 1 rangePins).

(** ** Fixtures *)

(** [strconv.ParseFloat] on plain decimal literals (sign, digits, at most
    one point, at most 15 digits): the quotient of two integers that
    binary64 represents exactly is the correctly rounded value of the
    literal. Go accepts more (exponents, hexadecimal, infinities); this
    instance serves to run the code on the fixtures below. *)
Definition digitFloat (c : ascii) : option float :=
  d ← digitOf c;
  [0; 1; 2; 3; 4; 5; 6; 7; 8; 9]%float !! Z.to_nat d.

Fixpoint readDigits (s : list ascii) : list float * list ascii :=
  match s with
  | c :: s' =>
      match digitFloat c with
      | Some d => let (ds, r) := readDigits s' in (d :: ds, r)
      | None => ([], s)
      end
  | [] => ([], [])
  end.

Definition decimalFloat (s : string) : Result float :=
  let b := bytes s in
  let '(neg, b) :=
    match b with
    | c :: r => if Ascii.eqb c "-" then (true, r)
                else if Ascii.eqb c "+" then (false, r) else (false, b)
    | [] => (false, b)
    end in
  let '(ip, r1) := readDigits b in
  let '(fp, r2) :=
    match r1 with
    | c :: r => if Ascii.eqb c "." then readDigits r else ([], r1)
    | [] => ([], r1)
    end in
  match r2 with
  | [] =>
      if (1 <=? length ip + length fp) && (length ip + length fp <=? 15) then
        let m := fold_left (fun acc d => acc * 10 + d)%float (ip ++ fp) 0%float in
        let scale := fold_left (fun acc _ => acc * 10)%float fp 1%float in
        Ok (if neg then - (m / scale) else m / scale)%float
      else Err (NumError "ParseFloat" s false)
  | _ => Err (NumError "ParseFloat" s false)
  end.

(** An OS state given by its readable files and directories; everything
    else does not exist. *)
Definition osOfFiles (files : gmap string string) (dirs : gmap string (list string))
    (cpu : Result (list float)) (vm : Result VirtualMemoryStat.t)
    (du : Result UsageStat.t) : OS :=
  {| fs_read := fun p =>
       match files !! p with
       | Some data => Ok data
       | None => Err (PathError "open" p ENOENT)
       end;
     fs_readdir := fun p =>
       match dirs !! p with
       | Some names => Ok names
       | None => Err (PathError "open" p ENOENT)
       end;
     fs_stat := fun p =>
       match dirs !! p with
       | Some _ => None
       | None =>
           match files !! p with
           | Some _ => None
           | None => Some (PathError "stat" p ENOENT)
           end
       end;
     cpu_Percent := cpu;
     mem_VirtualMemory := vm;
     disk_Usage := fun _ => du |}.

Definition lf (s : string) : string := s +:+ newline.

(** A small board: load average, one thermal zone, an [sda] disk and two
    exported GPIO pins next to the chip entry. *)
Definition mockLoadavg : string := lf "0.10 0.25 0.30 1/123 4567".

Definition mockDiskLine : string := "   8       0 sda 100 5 2000 30 50 2 1000 40 0 70 70".

Definition mockDiskstats : string :=
  lf "   7       0 loop0 10 0 20 3 0 0 0 0 0 4 4"
  +:+ lf mockDiskLine
  +:+ lf "   8       1 sda1 90 5 1800 25 45 2 900 35 0 60 60".

Definition mockFiles : gmap string string :=
  list_to_map
    [ ("/proc/loadavg", mockLoadavg);
      ("/proc/cpuinfo", lf "processor	: 0" +:+ lf "cpu MHz		: 1400.000");
      ("/proc/diskstats", mockDiskstats);
      ("/sys/class/thermal/thermal_zone0/temp", lf "45000");
      ("/sys/class/gpio/gpio17/direction", lf "in");
      ("/sys/class/gpio/gpio17/value", lf "1");
      ("/sys/class/gpio/gpio27/direction", lf "out");
      ("/sys/class/gpio/gpio27/value", lf "0") ].

Definition mockDirs : gmap string (list string) :=
  list_to_map
    [ ("/sys/class/gpio", ["export"; "gpio17"; "gpio27"; "gpiochip0"; "unexport"]) ].

Definition mockVM : VirtualMemoryStat.t :=
  VirtualMemoryStat.mk 1000 600 400 40 300.

Definition mockDU : UsageStat.t := UsageStat.mk 8000 6000 2000 25.

Definition mockOS : OS :=
  osOfFiles mockFiles mockDirs (Ok [12.5%float]) (Ok mockVM) (Ok mockDU).

(** The same board without GPIO support and with a failing memory query. *)
Definition bareOS : OS :=
  osOfFiles mockFiles empty (Ok [12.5%float]) (Err (errorString "no meminfo")) (Ok mockDU).

Definition worldAt (o : OS) (t : Z) : World := {| os := o; clock := t; journal := [] |}.

Definition mockStats : SystemStats.t :=
  SystemStats.mk 100 CPUStats.zero MemStats.zero DiskStats.zero TempStats.zero
    GPIOStats.zero.

(** A JSON encoder for the fixtures: it accepts every snapshot. *)
Definition mockJSON (stats : SystemStats.t) : Result string := Ok "{}".

(** A first client connects: its handler has taken the lock and is about
    to insert the connection into the registry. *)
Definition connecting : Hub :=
  {| server := {| clients := empty; net := <[1 := newConn]> empty;
                  world := worldAt mockOS 0 |};
     mu := {| writer := true; readers := 0 |};
     bpc := BWait;
     hpc := <[1 := HInsert]> (<[1 := HLock]> (fun _ => HIdle)) |}.

(** Three registered clients; the peer of the second one has gone away. *)
Definition threeClients : WebServer :=
  {| clients := list_to_map [(1, true); (2, true); (3, true)];
     net := list_to_map
              [ (1, newConn);
                (2, {| closed := false; peerGone := true; received := [] |});
                (3, newConn) ];
     world := worldAt mockOS 100 |}.

(** A /proc/cpuinfo whose first "cpu MHz" lines are of no use: one holds no
    number, one has two colons. *)
Definition oddCpuinfo : string :=
  lf "model name	: ARMv7 Processor rev 4 (v7l)"
  +:+ lf "cpu MHz		: n/a"
  +:+ lf "cpu MHz		: 12:30"
  +:+ lf "cpu MHz		: 600.000"
  +:+ lf "cpu MHz		: 1400.000".

(** A /proc/diskstats whose line for the card has a read counter beyond 64
    bits and a write counter that is no number. *)
Definition oddDiskLine : string :=
  " 179       0 mmcblk0 99999999999999999999 5 2000 30 -50 2 1000 40 0 70 70".

Definition oddDiskstats : string :=
  lf "   7       0 loop0 10 0 20 3 0 0 0 0 0 4 4" +:+ lf oddDiskLine.

Definition oddOS : OS :=
  osOfFiles (list_to_map [("/proc/cpuinfo", oddCpuinfo); ("/proc/diskstats", oddDiskstats)])
    empty (Ok []) (Ok mockVM) (Ok mockDU).

(** A host with nothing to read. *)
Definition emptyOS : OS :=
  osOfFiles empty empty (Err (errorString "no cpu")) (Err (errorString "no meminfo"))
    (Err (errorString "no disk")).

(** The broadcaster in the middle of a range, about to serve the client
    whose peer is gone. *)
Definition servingGone : Hub :=
  {| server := threeClients;
     mu := {| writer := false; readers := 1 |};
     bpc := BRange mockStats [2; 3];
     hpc := fun _ => RRead |}.

(** Eight exported pins, the odd ones high. *)
Definition eightPins : GPIOStats.t :=
  GPIOStats.mk
    (list_to_map
       [ ("gpio1", GPIOState.mk "gpio1" 1 "in"); ("gpio2", GPIOState.mk "gpio2" 0 "in");
         ("gpio3", GPIOState.mk "gpio3" 1 "out"); ("gpio4", GPIOState.mk "gpio4" 0 "out");
         ("gpio5", GPIOState.mk "gpio5" 1 "in"); ("gpio6", GPIOState.mk "gpio6" 0 "in");
         ("gpio7", GPIOState.mk "gpio7" 1 "out"); ("gpio8", GPIOState.mk "gpio8" 0 "out") ]).

(** ** Properties of the library model *)

Lemma index_in_range (fields : list string) (i n : nat) :
  n <= length fields -> i < n -> fields !! i = Some (index fields i).
Proof.
  intros Hn Hi. unfold index.
  destruct (fields !! i) as [f|] eqn:E; [reflexivity|].
  apply lookup_ge_None in E. lia.
Qed.

Lemma scanWhileFits_short (ls : list (list ascii)) :
  Forall (fun l => length l < MaxScanTokenSize) ls -> scanWhileFits ls = ls.
Proof.
  induction 1 as [|l ls Hl _ IH]; simpl; [reflexivity|].
  destruct (Nat.ltb_spec (length l) MaxScanTokenSize); [by rewrite IH | lia].
Qed.

Lemma scannerLines_short (data : string) :
  Forall (fun l => length l < MaxScanTokenSize) (rawLines data) ->
  scannerLines data = (fun l => text (dropCR l)) <$> rawLines data.
Proof. intros Hshort. unfold scannerLines. by rewrite scanWhileFits_short. Qed.

Lemma digitOf_range (c : ascii) (d : Z) : digitOf c = Some d -> (0 <= d <= 9)%Z.
Proof.
  unfold digitOf.
  destruct (48 <=? Z.of_N (N_of_ascii c))%Z eqn:Hlo; [|done].
  destruct (Z.of_N (N_of_ascii c) <=? 57)%Z eqn:Hhi; [|done].
  simpl. intros [= <-]. lia.
Qed.

Lemma digitsValue_ge (acc : Z) (ds : list ascii) :
  Forall (fun c => is_Some (digitOf c)) ds -> (0 <= acc)%Z -> (acc <= digitsValue acc ds)%Z.
Proof.
  intros Hds. revert acc. induction Hds as [|c ds [d Hd] _ IH]; intros acc Hacc; simpl.
  - lia.
  - rewrite Hd. simpl. apply digitOf_range in Hd.
    etrans; [|apply IH]; lia.
Qed.

(** The digit loop reads a numeral that fits 64 bits as its value. *)
Lemma parseUintLoop_numeral (n : Z) (ds : list ascii) :
  Forall (fun c => is_Some (digitOf c)) ds ->
  (0 <= n)%Z -> (digitsValue n ds <= maxUint64)%Z ->
  parseUintLoop n ds = UintValue (digitsValue n ds).
Proof.
  intros Hds. revert n. induction Hds as [|c ds [d Hd] Hds IH]; intros n Hn Hmax; simpl.
  - reflexivity.
  - simpl in Hmax. rewrite Hd in *. simpl in Hmax.
    pose proof (digitOf_range _ _ Hd) as Hd09.
    pose proof (digitsValue_ge (n * 10 + d) ds Hds ltac:(lia)) as Hge.
    assert (maxUint64 = 18446744073709551615%Z) as Hval by reflexivity.
    assert ((maxUint64 / 10 + 1)%Z = 1844674407370955162%Z) as Hcut by reflexivity.
    rewrite Hcut.
    destruct (Z.leb_spec 1844674407370955162 n); [lia|].
    destruct (Z.ltb_spec maxUint64 (n * 10 + d)); [lia|].
    simpl. apply IH; lia.
Qed.

(** [ParseUint] reads a decimal numeral below 2^64 as the number it denotes,
    without error. *)
Lemma strconv_ParseUint_numeral (s : string) :
  bytes s <> [] ->
  Forall (fun c => is_Some (digitOf c)) (bytes s) ->
  (digitsValue 0 (bytes s) <= maxUint64)%Z ->
  strconv_ParseUint s = (digitsValue 0 (bytes s), None).
Proof.
  intros Hne Hds Hmax. unfold strconv_ParseUint.
  destruct (bytes s) as [|c ds]; [done|].
  by rewrite (parseUintLoop_numeral 0 (c :: ds)) by (done || lia).
Qed.

(** ** Facts about the monad and the readers *)

Lemma reader_ret {A} (a : A) : reader (ret a).
Proof. intros w. unfold valueOn, ret. simpl. repeat split; lia. Qed.

Lemma reader_syscall {A} (f : OS -> A) : reader (syscall f).
Proof. intros w. unfold valueOn, syscall. simpl. repeat split; lia. Qed.

Lemma reader_bind {A B} (m : IO A) (k : A -> IO B) :
  reader m -> (forall a, reader (k a)) -> reader (bind m k).
Proof.
  intros Hm Hk w. unfold valueOn, bind.
  destruct (Hm w) as (Hv & Ho & Hj & Hc).
  destruct (Hm (bare (os w))) as (Hv0 & Ho0 & _ & _).
  unfold valueOn in *. simpl in Hv0, Ho0.
  destruct (m w) as [a w1]. destruct (m (bare (os w))) as [a0 w0].
  simpl in *. subst a.
  destruct (Hk a0 w1) as (Kv & Ko & Kj & Kc).
  destruct (Hk a0 w0) as (Kv0 & _ & _ & _).
  rewrite Kv, Kv0, Ko, Kj, Ho, Ho0. repeat split; [congruence..|lia].
Qed.

Lemma reader_run {A} (m : IO A) (w : World) :
  reader m ->
  exists w', m w = (valueOn m (os w), w')
             /\ os w' = os w /\ journal w' = journal w /\ (clock w <= clock w')%Z.
Proof.
  intros Hm. destruct (Hm w) as (Hv & Ho & Hj & Hc).
  exists (snd (m w)). rewrite <- Hv. by destruct (m w).
Qed.

Create HintDb reader.
#[local] Hint Resolve reader_ret reader_syscall : reader.

(** Decompose a computation along its binds and matches. *)
Ltac reader_step :=
  match goal with
  | |- forall _, _ => intros ?
  | |- reader (bind _ _) => apply reader_bind; [| intros ?]
  | |- reader (ret _) => apply reader_ret
  | |- reader (syscall _) => apply reader_syscall
  | |- reader (match ?x with _ => _ end) => destruct x
  | |- reader (if ?x then _ else _) => destruct x
  | |- reader (let (_, _) := ?x in _) => destruct x
  end.

Ltac reader_auto := repeat (first [ solve [eauto with reader] | reader_step ]).

Lemma reader_ReadFile path : reader (ioutil_ReadFile path).
Proof. apply reader_syscall. Qed.

Lemma reader_Open path : reader (os_Open path).
Proof. apply reader_syscall. Qed.

Lemma reader_ReadDir path : reader (ioutil_ReadDir path).
Proof. apply reader_syscall. Qed.

Lemma reader_Stat path : reader (os_Stat path).
Proof. apply reader_syscall. Qed.

#[local] Hint Resolve reader_ReadFile reader_Open reader_ReadDir reader_Stat : reader.

Lemma reader_readDiskIO : reader readDiskIO.
Proof. unfold readDiskIO. reader_auto. Qed.

Lemma reader_readGPIOState p : reader (readGPIOState p).
Proof. unfold readGPIOState. reader_auto. Qed.

#[local] Hint Resolve reader_readDiskIO reader_readGPIOState : reader.

Lemma reader_gpioLoop files pins : reader (gpioLoop files pins).
Proof.
  revert pins. induction files as [|pinName rest IH]; intros pins; simpl.
  - apply reader_ret.
  - destruct (strings_HasPrefix pinName "gpio"); [|apply IH].
    apply reader_bind; [apply reader_readGPIOState|].
    intros [[value mode] [err|]]; apply IH.
Qed.

#[local] Hint Resolve reader_gpioLoop : reader.

Lemma reader_getGPIOStats : reader getGPIOStats.
Proof. unfold getGPIOStats. reader_auto. Qed.

Lemma reader_getMemoryStats : reader getMemoryStats.
Proof. unfold getMemoryStats. reader_auto. Qed.

Lemma reader_getDiskStats : reader getDiskStats.
Proof. unfold getDiskStats. reader_auto. Qed.

#[local] Hint Resolve reader_getGPIOStats reader_getMemoryStats reader_getDiskStats : reader.

Lemma valueOn_bind {A B} (m : IO A) (k : A -> IO B) (o : OS) :
  reader m -> (forall a, reader (k a)) ->
  valueOn (bind m k) o = valueOn (k (valueOn m o)) o.
Proof.
  intros Hm Hk. unfold valueOn at 1. unfold bind.
  destruct (Hm (bare o)) as (Hv & Ho & _ & _).
  destruct (m (bare o)) as [a w1]. simpl in *.
  destruct (Hk a w1) as (Kv & _ & _ & _).
  rewrite Kv, Ho. by subst a.
Qed.

Lemma valueOn_fst {A} (m : IO A) (w : World) :
  reader m -> fst (m w) = valueOn m (os w).
Proof. intros Hm. by destruct (Hm w). Qed.

Lemma valueOn_syscall {A} (f : OS -> A) (o : OS) : valueOn (syscall f) o = f o.
Proof. reflexivity. Qed.

Lemma valueOn_ret {A} (a : A) (o : OS) : valueOn (ret a) o = a.
Proof. reflexivity. Qed.

(** *** The scan of /proc/diskstats *)

Lemma diskstatsLoop_none (lines : list string) :
  (forall l, l ∈ lines -> isDiskLine (strings_Fields l) = false) ->
  diskstatsLoop lines = DiskIOStats.zero.
Proof.
  induction lines as [|line rest IH]; intros Hno; simpl; [reflexivity|].
  rewrite (Hno line) by apply list_elem_of_here.
  apply IH. intros l Hl. apply Hno. by apply list_elem_of_further.
Qed.

Lemma diskstatsLoop_first (before after : list string) (line : string) :
  isDiskLine (strings_Fields line) = true ->
  (forall l, l ∈ before -> isDiskLine (strings_Fields l) = false) ->
  diskstatsLoop (before ++ line :: after)
  = DiskIOStats.mk (fst (strconv_ParseUint (index (strings_Fields line) 3)))
      (fst (strconv_ParseUint (index (strings_Fields line) 7))).
Proof.
  intros Hline. induction before as [|l0 before IH]; intros Hno; simpl.
  - by rewrite Hline.
  - rewrite (Hno l0) by apply list_elem_of_here.
    apply IH. intros l Hl. apply Hno. by apply list_elem_of_further.
Qed.

Lemma isDiskLine_fields (fields : list string) :
  isDiskLine fields = true ->
  14 <= length fields
  /\ (fields !! 2 = Some "sda" \/ fields !! 2 = Some "mmcblk0")
  /\ fields !! 3 = Some (index fields 3)
  /\ fields !! 7 = Some (index fields 7).
Proof.
  unfold isDiskLine. intros H.
  apply andb_prop in H as [Hlen Hname]. apply Nat.leb_le in Hlen.
  split; [done|]. split; [|split].
  - rewrite (index_in_range fields 2 14) by lia.
    apply orb_prop in Hname as [Hn|Hn]; apply String.eqb_eq in Hn; rewrite Hn; auto.
  - apply (index_in_range fields 3 14); lia.
  - apply (index_in_range fields 7 14); lia.
Qed.

Lemma readDiskIO_value (o : OS) :
  valueOn readDiskIO o
  = match fs_read o "/proc/diskstats" with
    | Ok data => Ok (diskstatsLoop (scannerLines data))
    | Err err => Err err
    end.
Proof.
  unfold readDiskIO. rewrite valueOn_bind; [|reader_auto..].
  unfold os_Open. rewrite valueOn_syscall.
  destruct (fs_read o "/proc/diskstats"); reflexivity.
Qed.

(** C3. For every content of /proc/diskstats: when [line] is the first line
    of the scan with at least 14 fields whose third field is "sda" or
    "mmcblk0", [readDiskIO] returns the number in its fourth field as the
    read counter and the number in its eighth field as the write counter
    (fields counted from one; a number is what [ParseUint] makes of the
    field); when the scan has no such line, both counters are zero and the
    disk family still succeeds with them. *)
Theorem readDiskIO_first_matching_line (w : World) (data : string) :
  fs_read (os w) "/proc/diskstats" = Ok data ->
  (forall line,
      firstDiskLine data line ->
      let fields := strings_Fields line in
      exists name reads writes,
        14 <= length fields
        /\ fields !! 2 = Some name /\ (name = "sda" \/ name = "mmcblk0")
        /\ fields !! 3 = Some reads /\ fields !! 7 = Some writes
        /\ fst (readDiskIO w)
           = Ok (DiskIOStats.mk (fst (strconv_ParseUint reads))
                   (fst (strconv_ParseUint writes))))
  /\ ((forall l, l ∈ scannerLines data -> isDiskLine (strings_Fields l) = false) ->
      fst (readDiskIO w) = Ok (DiskIOStats.mk 0 0)
      /\ forall usage,
          disk_Usage (os w) "/" = Ok usage ->
          exists stats,
            fst (getDiskStats w) = Ok stats
            /\ DiskStats.IORead stats = 0%Z /\ DiskStats.IOWrite stats = 0%Z).
Proof.
  intros Hdata.
  assert (fst (readDiskIO w) = Ok (diskstatsLoop (scannerLines data))) as Hrun.
  { rewrite valueOn_fst by apply reader_readDiskIO.
    by rewrite readDiskIO_value, Hdata. }
  split.
  - intros line (before & after & Hlines & Hline & Hbefore) fields.
    destruct (isDiskLine_fields _ Hline) as (Hlen & Hname & H3 & H7).
    exists (index fields 2), (index fields 3), (index fields 7).
    split; [done|]. split; [|split; [|split; [done|split; [done|]]]].
    + apply (index_in_range fields 2 14); [done|lia].
    + unfold index. fold fields in Hname. destruct Hname as [-> | ->]; simpl; auto.
    + rewrite Hrun, Hlines. f_equal. by apply diskstatsLoop_first.
  - intros Hno. rewrite Hrun, (diskstatsLoop_none _ Hno). split; [reflexivity|].
    intros usage Husage. rewrite valueOn_fst by apply reader_getDiskStats.
    unfold getDiskStats. rewrite valueOn_bind; [|reader_auto..].
    rewrite valueOn_syscall, Husage.
    rewrite valueOn_bind; [|reader_auto..].
    rewrite readDiskIO_value, Hdata, (diskstatsLoop_none _ Hno).
    eexists. split; [reflexivity|]. by simpl.
Qed.

(** *** GPIO pins *)

Lemma readGPIOState_value (p : string) (o : OS) :
  valueOn (readGPIOState p) o
  = match fs_read o (filepath_Join p "direction") with
    | Err err => (0%Z, EmptyString, Some err)
    | Ok direction =>
        match fs_read o (filepath_Join p "value") with
        | Err err => (0%Z, strings_TrimSpace direction, Some err)
        | Ok valueData =>
            match strconv_Atoi (strings_TrimSpace valueData) with
            | Err err => (0%Z, strings_TrimSpace direction, Some err)
            | Ok value => (value, strings_TrimSpace direction, None)
            end
        end
    end.
Proof.
  unfold readGPIOState. rewrite valueOn_bind; [|reader_auto..].
  unfold ioutil_ReadFile at 1. rewrite valueOn_syscall.
  destruct (fs_read o (filepath_Join p "direction")) as [direction|err]; [|reflexivity].
  rewrite valueOn_bind; [|reader_auto..].
  unfold ioutil_ReadFile. rewrite valueOn_syscall.
  destruct (fs_read o (filepath_Join p "value")) as [valueData|err]; [|reflexivity].
  destruct (strconv_Atoi (strings_TrimSpace valueData)); reflexivity.
Qed.

(** The loop adds the readable pins among the entries it visits and leaves
    every other key of the map as it was. *)
Lemma gpioLoop_lookup (o : OS) (files : list string) (pins : gmap string GPIOState.t)
    (name : string) :
  valueOn (gpioLoop files pins) o !! name
  = if decide (name ∈ files /\ strings_HasPrefix name "gpio" = true) then
      match pinOf o name with
      | Some st => Some st
      | None => pins !! name
      end
    else pins !! name.
Proof.
  revert pins. induction files as [|pinName rest IH]; intros pins; simpl.
  - by rewrite valueOn_ret.
  - destruct (strings_HasPrefix pinName "gpio") eqn:Hprefix.
    + rewrite valueOn_bind; [|reader_auto..].
      destruct (valueOn (readGPIOState (filepath_Join gpioPath pinName)) o)
        as [[value mode] [err|]] eqn:Hst; rewrite IH.
      * (* the pin cannot be read: it is skipped *)
        destruct (decide (name = pinName)) as [->|Hne].
        -- unfold pinOf. rewrite Hst. repeat case_decide; reflexivity.
        -- repeat case_decide; try reflexivity;
             exfalso; clear IH; rewrite elem_of_cons in *; intuition congruence.
      * (* the pin is stored *)
        destruct (decide (name = pinName)) as [->|Hne].
        -- unfold pinOf. rewrite Hst, lookup_insert_eq.
           repeat case_decide; try reflexivity;
             exfalso; clear IH; rewrite elem_of_cons in *; intuition congruence.
        -- rewrite lookup_insert_ne by done.
           repeat case_decide; try reflexivity;
             exfalso; clear IH; rewrite elem_of_cons in *; intuition congruence.
    + rewrite IH.
      destruct (decide (name = pinName)) as [->|Hne];
        repeat case_decide; try reflexivity;
        exfalso; clear IH; rewrite ?elem_of_cons in *; intuition congruence.
Qed.

Lemma getGPIOStats_value (o : OS) :
  valueOn getGPIOStats o
  = Ok (GPIOStats.mk
          (if os_IsNotExist (fs_stat o gpioPath) then empty
           else match fs_readdir o gpioPath with
                | Ok files => valueOn (gpioLoop files empty) o
                | Err _ => empty
                end)).
Proof.
  unfold getGPIOStats. rewrite valueOn_bind; [|reader_auto..].
  unfold os_Stat. rewrite valueOn_syscall.
  destruct (os_IsNotExist (fs_stat o gpioPath)); [reflexivity|].
  rewrite valueOn_bind; [|reader_auto..].
  unfold ioutil_ReadDir. rewrite valueOn_syscall.
  destruct (fs_readdir o gpioPath) as [files|err]; [|reflexivity].
  rewrite valueOn_bind; [|reader_auto..]. reflexivity.
Qed.

(** *** Memory and disk *)

Lemma getMemoryStats_value (o : OS) :
  valueOn getMemoryStats o
  = match mem_VirtualMemory o with
    | Err err => Err err
    | Ok vmstat =>
        Ok (MemStats.mk (VirtualMemoryStat.Total vmstat) (VirtualMemoryStat.Used vmstat)
              (VirtualMemoryStat.Free vmstat) (VirtualMemoryStat.Available vmstat)
              (VirtualMemoryStat.UsedPercent vmstat))
    end.
Proof.
  unfold getMemoryStats. rewrite valueOn_bind; [|reader_auto..].
  rewrite valueOn_syscall. destruct (mem_VirtualMemory o); reflexivity.
Qed.

Lemma getDiskStats_failure (o : OS) (err : error) :
  disk_Usage o "/" = Err err -> valueOn getDiskStats o = Err err.
Proof.
  intros Husage. unfold getDiskStats. rewrite valueOn_bind; [|reader_auto..].
  by rewrite valueOn_syscall, Husage.
Qed.

Section MonitorFacts.

Variable ParseFloat : string -> Result float.
Variable order : list (string * string).

Lemma reader_readLoadAverage : reader (readLoadAverage ParseFloat).
Proof. unfold readLoadAverage. reader_auto. Qed.

Lemma reader_readCPUFrequency : reader (readCPUFrequency ParseFloat).
Proof. unfold readCPUFrequency. reader_auto. Qed.

Lemma reader_readTemperature path : reader (readTemperature ParseFloat path).
Proof. unfold readTemperature. reader_auto. Qed.

Hint Resolve reader_readLoadAverage reader_readCPUFrequency reader_readTemperature : reader.

Lemma reader_getCPUStats : reader (getCPUStats ParseFloat).
Proof. unfold getCPUStats. reader_auto. Qed.

Lemma reader_tempLoop entries stats : reader (tempLoop ParseFloat entries stats).
Proof.
  revert stats. induction entries as [|[sensor path] rest IH]; intros stats; simpl.
  - apply reader_ret.
  - apply reader_bind; [apply reader_readTemperature|].
    intros [temp|err]; apply IH.
Qed.

Hint Resolve reader_tempLoop : reader.

Lemma reader_getTemperatureStats : reader (getTemperatureStats ParseFloat order).
Proof. unfold getTemperatureStats. reader_auto. Qed.

Hint Resolve reader_getCPUStats reader_getTemperatureStats : reader.

(** *** The load average *)

Lemma readLoadAverage_value (o : OS) :
  valueOn (readLoadAverage ParseFloat) o
  = match fs_read o "/proc/loadavg" with
    | Err err => Err err
    | Ok data =>
        let fields := strings_Fields data in
        if length fields <? 3 then Err (errorString "invalid loadavg format")
        else loadsLoop ParseFloat 3 0 fields (replicate 3 0%float)
    end.
Proof.
  unfold readLoadAverage. rewrite valueOn_bind; [|reader_auto..].
  unfold ioutil_ReadFile. rewrite valueOn_syscall.
  destruct (fs_read o "/proc/loadavg") as [data|err]; [|reflexivity].
  simpl. destruct (length (strings_Fields data) <? 3); reflexivity.
Qed.

(** C6. For every content of /proc/loadavg: when it has at least three
    fields and the first three parse as floats, [readLoadAverage] returns
    exactly these three values, in order; when it has fewer than three
    fields, or one of the first three does not parse, it returns an error. *)
Theorem readLoadAverage_three_fields (w : World) (data : string) :
  fs_read (os w) "/proc/loadavg" = Ok data ->
  let fields := strings_Fields data in
  (forall f0 f1 f2 rest v0 v1 v2,
      fields = f0 :: f1 :: f2 :: rest ->
      ParseFloat f0 = Ok v0 -> ParseFloat f1 = Ok v1 -> ParseFloat f2 = Ok v2 ->
      fst (readLoadAverage ParseFloat w) = Ok [v0; v1; v2])
  /\ (length fields < 3 ->
      fst (readLoadAverage ParseFloat w) = Err (errorString "invalid loadavg format"))
  /\ (forall i f err,
        i < 3 -> fields !! i = Some f -> ParseFloat f = Err err ->
        exists err', fst (readLoadAverage ParseFloat w) = Err err').
Proof.
  intros Hdata fields.
  rewrite valueOn_fst by apply reader_readLoadAverage.
  rewrite readLoadAverage_value, Hdata. simpl. fold fields.
  split; [|split].
  - intros f0 f1 f2 rest v0 v1 v2 Hf H0 H1 H2. rewrite Hf. simpl.
    unfold index. simpl. by rewrite H0, H1, H2.
  - intros Hlen. by apply Nat.ltb_lt in Hlen as ->.
  - intros i f err Hi Hf Herr.
    destruct (length fields <? 3); [eauto|].
    assert (index fields i = f) as Hidx by (unfold index; by rewrite Hf).
    simpl.
    destruct i as [|[|[|]]]; [| | |lia].
    + rewrite Hidx, Herr. eauto.
    + destruct (ParseFloat (index fields 0)); [|eauto].
      rewrite Hidx, Herr. eauto.
    + destruct (ParseFloat (index fields 0)); [|eauto].
      destruct (ParseFloat (index fields 1)); [|eauto].
      rewrite Hidx, Herr. eauto.
Qed.

(** *** Temperatures *)

Lemma readTemperature_value (path : string) (o : OS) :
  valueOn (readTemperature ParseFloat path) o
  = match fs_read o path with
    | Err err => Err err
    | Ok data =>
        match ParseFloat (strings_TrimSpace data) with
        | Err err => Err err
        | Ok temp => Ok (temp / 1000)%float
        end
    end.
Proof.
  unfold readTemperature. rewrite valueOn_bind; [|reader_auto..].
  unfold ioutil_ReadFile. rewrite valueOn_syscall.
  destruct (fs_read o path) as [data|err]; [|reflexivity].
  destruct (ParseFloat (strings_TrimSpace data)); reflexivity.
Qed.

Lemma tempLoop_value (o : OS) (entries : list (string * string)) (stats : TempStats.t) :
  valueOn (tempLoop ParseFloat entries stats) o = foldl (tempTurn ParseFloat o) stats entries.
Proof.
  revert stats. induction entries as [|[sensor path] rest IH]; intros stats; simpl.
  - reflexivity.
  - rewrite valueOn_bind; [|reader_auto..].
    unfold tempTurn at 2. simpl.
    destruct (valueOn (readTemperature ParseFloat path) o); apply IH.
Qed.

Lemma assignSensor_comm (s1 s2 : string) (t1 t2 : float) (stats : TempStats.t) :
  s1 <> s2 ->
  assignSensor s1 t1 (assignSensor s2 t2 stats)
  = assignSensor s2 t2 (assignSensor s1 t1 stats).
Proof.
  intros Hne. unfold assignSensor.
  destruct (String.eqb_spec s1 "cpu"), (String.eqb_spec s2 "cpu");
    [congruence|..];
  destruct (String.eqb_spec s1 "gpu"), (String.eqb_spec s2 "gpu");
    try congruence;
  destruct (String.eqb_spec s1 "board"), (String.eqb_spec s2 "board");
    try congruence;
  destruct (String.eqb_spec s1 "ambient"), (String.eqb_spec s2 "ambient");
    try congruence; reflexivity.
Qed.

Lemma tempTurn_comm (o : OS) (e1 e2 : string * string) (stats : TempStats.t) :
  e1.1 <> e2.1 ->
  tempTurn ParseFloat o (tempTurn ParseFloat o stats e1) e2 = tempTurn ParseFloat o (tempTurn ParseFloat o stats e2) e1.
Proof.
  intros Hne. unfold tempTurn.
  destruct (valueOn (readTemperature ParseFloat e1.2) o),
           (valueOn (readTemperature ParseFloat e2.2) o); try reflexivity.
  by apply assignSensor_comm.
Qed.

(** The result of the loop does not depend on the order of the range, as
    long as the range yields each sensor once. *)
Lemma tempFold_Permutation (o : OS) (l l' : list (string * string)) :
  l ≡ₚ l' -> NoDup (l.*1) ->
  forall stats, foldl (tempTurn ParseFloat o) stats l = foldl (tempTurn ParseFloat o) stats l'.
Proof.
  induction 1 as [|e l l' Hp IH|e1 e2 l|l l' l'' Hp1 IH1 Hp2 IH2]; intros Hnd stats.
  - reflexivity.
  - simpl. apply IH. by inversion Hnd.
  - simpl. f_equal. symmetry. apply tempTurn_comm.
    simpl in Hnd. inversion Hnd as [|? ? Hnotin _]. subst.
    intros Heq. apply Hnotin. rewrite Heq. apply list_elem_of_here.
  - rewrite IH1 by done. apply IH2. by rewrite <- Hp1.
Qed.

Lemma getTemperatureStats_value (o : OS) :
  order ≡ₚ tempPaths ->
  valueOn (getTemperatureStats ParseFloat order) o
  = Ok (TempStats.mk
          (sensorValue ParseFloat o "/sys/class/thermal/thermal_zone0/temp")
          (sensorValue ParseFloat o "/sys/class/thermal/thermal_zone1/temp")
          (sensorValue ParseFloat o "/sys/class/thermal/thermal_zone2/temp")
          (sensorValue ParseFloat o "/sys/class/thermal/thermal_zone3/temp")).
Proof.
  intros Hperm. unfold getTemperatureStats.
  rewrite valueOn_bind; [|reader_auto..].
  rewrite valueOn_ret, tempLoop_value. f_equal.
  rewrite <- (tempFold_Permutation o tempPaths order); [|done|].
  - unfold tempPaths, sensorValue, tempTurn. simpl.
    destruct (valueOn (readTemperature ParseFloat "/sys/class/thermal/thermal_zone0/temp") o),
             (valueOn (readTemperature ParseFloat "/sys/class/thermal/thermal_zone1/temp") o),
             (valueOn (readTemperature ParseFloat "/sys/class/thermal/thermal_zone2/temp") o),
             (valueOn (readTemperature ParseFloat "/sys/class/thermal/thermal_zone3/temp") o);
      reflexivity.
  - unfold tempPaths. simpl. compute_done.
Qed.

(** C4. A sensor file whose content (white space trimmed) parses as the
    number [n] reads as [n / 1000] degrees; and in the temperature family
    each of the four sensors stands for itself: a sensor that cannot be
    read contributes zero, and every other field is what its own file
    reads as, whatever the order in which the sensors are visited. *)
Theorem readTemperature_millidegrees (w : World) :
  order ≡ₚ tempPaths ->
  (forall path data n,
      fs_read (os w) path = Ok data ->
      ParseFloat (strings_TrimSpace data) = Ok n ->
      fst (readTemperature ParseFloat path w) = Ok (n / 1000)%float)
  /\ (forall path err,
        fs_read (os w) path = Err err ->
        fst (readTemperature ParseFloat path w) = Err err)
  /\ fst (getTemperatureStats ParseFloat order w)
     = Ok (TempStats.mk
             (absorb 0%float
                (fst (readTemperature ParseFloat "/sys/class/thermal/thermal_zone0/temp" w)))
             (absorb 0%float
                (fst (readTemperature ParseFloat "/sys/class/thermal/thermal_zone1/temp" w)))
             (absorb 0%float
                (fst (readTemperature ParseFloat "/sys/class/thermal/thermal_zone2/temp" w)))
             (absorb 0%float
                (fst (readTemperature ParseFloat "/sys/class/thermal/thermal_zone3/temp" w)))).
Proof.
  intros Hperm. split; [|split].
  - intros path data n Hdata Hn.
    rewrite valueOn_fst by apply reader_readTemperature.
    by rewrite readTemperature_value, Hdata, Hn.
  - intros path err Hdata.
    rewrite valueOn_fst by apply reader_readTemperature.
    by rewrite readTemperature_value, Hdata.
  - rewrite valueOn_fst by apply reader_getTemperatureStats.
    rewrite !(valueOn_fst (readTemperature _ _)) by apply reader_readTemperature.
    by apply getTemperatureStats_value.
Qed.

Lemma ticking_bind {A B} (m : IO A) (k : A -> IO B) :
  ticking m -> (forall a, reader (k a)) -> ticking (bind m k).
Proof.
  intros Hm Hk w. unfold bind. specialize (Hm w).
  destruct (m w) as [a w1]. simpl in Hm.
  destruct (Hk a w1) as (_ & _ & _ & Hc). lia.
Qed.

Lemma ticking_syscall {A} (f : OS -> A) : ticking (syscall f).
Proof. intros w. unfold syscall, tick. simpl. lia. Qed.

Lemma ticking_getCPUStats : ticking (getCPUStats ParseFloat).
Proof.
  unfold getCPUStats. apply ticking_bind; [apply ticking_syscall|].
  intros usage. reader_auto.
Qed.

(** One family of the snapshot: the value or the zero, the warning, and
    nothing else changes. *)
Lemma collect_run {A} (m : IO (Result A)) fmt (zero : A) assign stats w :
  reader m ->
  exists w',
    collect m fmt assign stats w
      = (match valueOn m (os w) with Ok v => assign v stats | Err _ => stats end, w')
    /\ os w' = os w
    /\ journal w' = journal w ++ warning fmt (valueOn m (os w))
    /\ (clock (snd (m w)) <= clock w')%Z.
Proof.
  intros Hm. unfold collect, bind.
  destruct (Hm w) as (Hv & Ho & Hj & Hc).
  destruct (m w) as [r w1]. simpl in *. rewrite <- Hv.
  destruct r as [v|err]; simpl.
  - exists w1. rewrite app_nil_r. repeat split; [done..|lia].
  - eexists. split; [reflexivity|]. simpl. repeat split; [congruence..|lia].
Qed.

(** The run of [GetSystemStats] in full: the snapshot, the journal and the
    clock afterwards. *)
Lemma GetSystemStats_run (w : World) :
  let o := os w in
  let cpu := valueOn (getCPUStats ParseFloat) o in
  let mem := valueOn getMemoryStats o in
  let disk := valueOn getDiskStats o in
  let temp := valueOn (getTemperatureStats ParseFloat order) o in
  let gpio := valueOn getGPIOStats o in
  exists w',
    GetSystemStats ParseFloat order w
      = (Ok (SystemStats.mk (clock w)
               (absorb CPUStats.zero cpu) (absorb MemStats.zero mem)
               (absorb DiskStats.zero disk) (absorb TempStats.zero temp)
               (absorb GPIOStats.zero gpio)), w')
    /\ os w' = o
    /\ journal w'
        = journal w
          ++ warning "Failed to get CPU stats: %v" cpu
          ++ warning "Failed to get memory stats: %v" mem
          ++ warning "Failed to get disk stats: %v" disk
          ++ warning "Failed to get temperature stats: %v" temp
          ++ warning "Failed to get GPIO stats: %v" gpio
    /\ (clock w < clock w')%Z
    /\ (clock (snd (getCPUStats ParseFloat w)) <= clock w')%Z.
Proof.
  intros o cpu mem disk temp gpio.
  unfold GetSystemStats, time_Now. unfold bind at 1.
  set (stats0 := SystemStats.mk _ _ _ _ _ _).
  pose proof (ticking_getCPUStats w) as Htick.
  unfold bind at 1.
  destruct (collect_run (getCPUStats ParseFloat) "Failed to get CPU stats: %v"
              CPUStats.zero setCPU stats0 w reader_getCPUStats)
    as (w1 & E1 & O1 & J1 & C1).
  rewrite E1. unfold bind at 1.
  destruct (collect_run getMemoryStats "Failed to get memory stats: %v"
              MemStats.zero setMemory
              (match valueOn (getCPUStats ParseFloat) (os w) with
               | Ok v => setCPU v stats0 | Err _ => stats0 end)
              w1 reader_getMemoryStats)
    as (w2 & E2 & O2 & J2 & C2).
  rewrite E2. unfold bind at 1.
  match goal with |- context [collect getDiskStats _ _ ?s w2] =>
    destruct (collect_run getDiskStats "Failed to get disk stats: %v"
                DiskStats.zero setDisk s w2 reader_getDiskStats)
      as (w3 & E3 & O3 & J3 & C3) end.
  rewrite E3. unfold bind at 1.
  match goal with |- context [collect (getTemperatureStats _ _) _ _ ?s w3] =>
    destruct (collect_run (getTemperatureStats ParseFloat order)
                "Failed to get temperature stats: %v"
                TempStats.zero setTemperature s w3 reader_getTemperatureStats)
      as (w4 & E4 & O4 & J4 & C4) end.
  rewrite E4. unfold bind at 1.
  match goal with |- context [collect getGPIOStats _ _ ?s w4] =>
    destruct (collect_run getGPIOStats "Failed to get GPIO stats: %v"
                GPIOStats.zero setGPIO s w4 reader_getGPIOStats)
      as (w5 & E5 & O5 & J5 & C5) end.
  rewrite E5. unfold ret.
  destruct (reader_getMemoryStats w1) as (_ & _ & _ & M1).
  destruct (reader_getDiskStats w2) as (_ & _ & _ & M2).
  destruct (reader_getTemperatureStats w3) as (_ & _ & _ & M3).
  destruct (reader_getGPIOStats w4) as (_ & _ & _ & M4).
  assert (os w1 = os w /\ os w2 = os w /\ os w3 = os w /\ os w4 = os w)
    as (Q1 & Q2 & Q3 & Q4) by (repeat split; congruence).
  exists w5. split; [|split; [|split; [|split]]].
  - rewrite Q1, Q2, Q3, Q4. fold o. fold cpu mem disk temp gpio.
    clearbody cpu mem disk temp gpio.
    f_equal. f_equal.
    destruct cpu, mem, disk, temp, gpio; reflexivity.
  - unfold o. congruence.
  - rewrite J5, J4, J3, J2, J1, Q4, Q3, Q2, Q1.
    fold o. fold cpu mem disk temp gpio. by rewrite <- !app_assoc.
  - lia.
  - lia.
Qed.

Lemma getTemperatureStats_ok (o : OS) :
  exists temp, valueOn (getTemperatureStats ParseFloat order) o = Ok temp.
Proof.
  unfold getTemperatureStats. rewrite valueOn_bind; [|reader_auto..].
  rewrite valueOn_ret. eauto.
Qed.

Lemma getCPUStats_value (o : OS) :
  exists cpu,
    valueOn (getCPUStats ParseFloat) o = Ok cpu /\ CPUStats.Temperature cpu = 0%float.
Proof.
  unfold getCPUStats.
  rewrite valueOn_bind; [|reader_auto..]. rewrite valueOn_syscall.
  rewrite valueOn_bind; [|reader_auto..].
  rewrite valueOn_bind; [|reader_auto..].
  rewrite valueOn_ret. eexists. split; [reflexivity|].
  destruct (cpu_Percent o) as [[|usage0 usage]|err],
           (valueOn (readLoadAverage ParseFloat) o),
           (valueOn (readCPUFrequency ParseFloat) o); reflexivity.
Qed.

(** C1. On every OS state [GetSystemStats] returns a snapshot and no error.
    Each of the five readers only reads the OS state (what it returns is
    the same wherever in the build it runs), and each family of the
    snapshot holds what its own reader returns on that OS state, or the
    zero value of the family when the reader fails: a failed memory or disk
    query zeroes that family and no other. *)
Theorem GetSystemStats_never_fails (w : World) :
  reader (getCPUStats ParseFloat) /\ reader getMemoryStats /\ reader getDiskStats
  /\ reader (getTemperatureStats ParseFloat order) /\ reader getGPIOStats
  /\ exists stats w',
    GetSystemStats ParseFloat order w = (Ok stats, w')
    /\ SystemStats.CPU stats
       = absorb CPUStats.zero (valueOn (getCPUStats ParseFloat) (os w))
    /\ SystemStats.Memory stats = absorb MemStats.zero (valueOn getMemoryStats (os w))
    /\ SystemStats.Disk stats = absorb DiskStats.zero (valueOn getDiskStats (os w))
    /\ SystemStats.Temperature stats
       = absorb TempStats.zero (valueOn (getTemperatureStats ParseFloat order) (os w))
    /\ SystemStats.GPIO stats = absorb GPIOStats.zero (valueOn getGPIOStats (os w))
    /\ (forall err, mem_VirtualMemory (os w) = Err err ->
          SystemStats.Memory stats = MemStats.zero)
    /\ (forall err, disk_Usage (os w) "/" = Err err ->
          SystemStats.Disk stats = DiskStats.zero).
Proof.
  destruct (GetSystemStats_run w) as (w' & Hrun & _).
  split; [apply reader_getCPUStats|]. split; [apply reader_getMemoryStats|].
  split; [apply reader_getDiskStats|]. split; [apply reader_getTemperatureStats|].
  split; [apply reader_getGPIOStats|].
  eexists _, w'. split; [exact Hrun|]. simpl.
  repeat split.
  - intros err Herr. by rewrite getMemoryStats_value, Herr.
  - intros err Herr. by rewrite (getDiskStats_failure _ err).
Qed.

(** C10. In every snapshot of [GetSystemStats] the CPU family's own
    [Temperature] field is zero: [getCPUStats] never assigns it. The
    sensor readings are in the temperature family only. *)
Theorem CPU_Temperature_always_zero (w : World) :
  exists stats,
    fst (GetSystemStats ParseFloat order w) = Ok stats
    /\ CPUStats.Temperature (SystemStats.CPU stats) = 0%float
    /\ SystemStats.Temperature stats
       = absorb TempStats.zero (valueOn (getTemperatureStats ParseFloat order) (os w)).
Proof.
  destruct (GetSystemStats_run w) as (w' & Hrun & _).
  rewrite Hrun. eexists. split; [reflexivity|]. simpl. split; [|reflexivity].
  destruct (getCPUStats_value (os w)) as (cpu & -> & Hzero). exact Hzero.
Qed.

(** C5. [getGPIOStats] never fails. Without the GPIO root it returns an
    empty mapping, and the snapshot still holds the other families. With
    the root, an entry of the directory whose name starts with "gpio" is in
    the mapping, under its name, exactly when [readGPIOState] reads its
    direction and its value without error; an entry that cannot be read is
    left out and changes nothing else. *)
Theorem getGPIOStats_pins (w : World) :
  exists gpio,
    fst (getGPIOStats w) = Ok gpio
    /\ (os_IsNotExist (fs_stat (os w) gpioPath) = true ->
        GPIOStats.Pins gpio = empty
        /\ exists stats,
            fst (GetSystemStats ParseFloat order w) = Ok stats
            /\ SystemStats.GPIO stats = GPIOStats.mk empty
            /\ SystemStats.CPU stats
               = absorb CPUStats.zero (valueOn (getCPUStats ParseFloat) (os w))
            /\ SystemStats.Memory stats
               = absorb MemStats.zero (valueOn getMemoryStats (os w))
            /\ SystemStats.Disk stats
               = absorb DiskStats.zero (valueOn getDiskStats (os w))
            /\ SystemStats.Temperature stats
               = absorb TempStats.zero
                   (valueOn (getTemperatureStats ParseFloat order) (os w)))
    /\ (forall files,
          os_IsNotExist (fs_stat (os w) gpioPath) = false ->
          fs_readdir (os w) gpioPath = Ok files ->
          (forall name value mode,
              name ∈ files -> strings_HasPrefix name "gpio" = true ->
              fst (readGPIOState (filepath_Join gpioPath name) w) = (value, mode, None) ->
              GPIOStats.Pins gpio !! name = Some (GPIOState.mk name value mode))
          /\ (forall name value mode err,
                fst (readGPIOState (filepath_Join gpioPath name) w)
                = (value, mode, Some err) ->
                GPIOStats.Pins gpio !! name = None)
          /\ (forall name,
                ~ (name ∈ files /\ strings_HasPrefix name "gpio" = true) ->
                GPIOStats.Pins gpio !! name = None)
          /\ (forall name direction valueData value,
                name ∈ files -> strings_HasPrefix name "gpio" = true ->
                fs_read (os w) (filepath_Join (filepath_Join gpioPath name) "direction")
                = Ok direction ->
                fs_read (os w) (filepath_Join (filepath_Join gpioPath name) "value")
                = Ok valueData ->
                strconv_Atoi (strings_TrimSpace valueData) = Ok value ->
                GPIOStats.Pins gpio !! name
                = Some (GPIOState.mk name value (strings_TrimSpace direction)))).
Proof.
  rewrite valueOn_fst by apply reader_getGPIOStats.
  rewrite getGPIOStats_value. eexists. split; [reflexivity|]. simpl. split.
  - intros Habsent. rewrite Habsent. split; [reflexivity|].
    destruct (GetSystemStats_run w) as (w' & Hrun & _).
    rewrite Hrun. eexists. split; [reflexivity|]. simpl.
    rewrite getGPIOStats_value, Habsent. done.
  - intros files Hroot Hfiles. rewrite Hroot, Hfiles.
    split; [|split; [|split]].
    + intros name value mode Hin Hprefix Hst.
      rewrite valueOn_fst in Hst by apply reader_readGPIOState.
      rewrite gpioLoop_lookup, decide_True by done.
      unfold pinOf. by rewrite Hst.
    + intros name value mode err Hst.
      rewrite valueOn_fst in Hst by apply reader_readGPIOState.
      rewrite gpioLoop_lookup. unfold pinOf. rewrite Hst.
      by case_decide.
    + intros name Hnot. by rewrite gpioLoop_lookup, decide_False.
    + intros name direction valueData value Hin Hprefix Hdir Hval Hatoi.
      rewrite gpioLoop_lookup, decide_True by done.
      unfold pinOf. by rewrite readGPIOState_value, Hdir, Hval, Hatoi.
Qed.

End MonitorFacts.

(** ** Facts about the web adapter *)

Section WebFacts.

Variable ParseFloat : string -> Result float.
Variable order : list (string * string).
Variable json_Marshal : SystemStats.t -> Result string.

(** A send succeeds on an open connection to a present peer, for a
    snapshot that JSON can encode. *)
Lemma delivers_iff (stats : SystemStats.t) (ws : WebServer) (c : Conn) :
  delivers json_Marshal stats ws c
  <-> exists st j,
        net ws !! c = Some st /\ closed st = false /\ peerGone st = false
        /\ json_Marshal stats = Ok j.
Proof.
  unfold delivers, conn_WriteJSON. split.
  - destruct (net ws !! c) as [st|]; [|done].
    destruct (closed st) eqn:Hc, (peerGone st) eqn:Hp; simpl; try done.
    destruct (json_Marshal stats) as [j|err]; [|done]. intros _. by exists st, j.
  - intros (st & j & -> & -> & -> & ->). reflexivity.
Qed.

Lemma conn_WriteJSON_other (c c' : Conn) stats (n : gmap Conn ConnState) :
  c <> c' -> snd (conn_WriteJSON json_Marshal c' stats n) !! c = n !! c.
Proof.
  intros Hne. unfold conn_WriteJSON.
  destruct (n !! c') as [st|]; [|reflexivity].
  destruct (closed st || peerGone st); [reflexivity|].
  destruct (json_Marshal stats); [|reflexivity].
  simpl. by rewrite lookup_insert_ne.
Qed.

Lemma conn_Close_other (c c' : Conn) (n : gmap Conn ConnState) :
  c <> c' -> conn_Close c' n !! c = n !! c.
Proof.
  intros Hne. unfold conn_Close.
  destruct (n !! c') as [st|]; [|reflexivity]. by rewrite lookup_insert_ne.
Qed.

Lemma conn_Close_closed (c : Conn) (n : gmap Conn ConnState) (st : ConnState) :
  n !! c = Some st ->
  conn_Close c n !! c
  = Some {| closed := true; peerGone := peerGone st; received := received st |}.
Proof. intros Hst. unfold conn_Close. by rewrite Hst, lookup_insert_eq. Qed.

Lemma deliver_other (c c' : Conn) stats (ws : WebServer) :
  c <> c' ->
  clients (deliver json_Marshal c' stats ws) !! c = clients ws !! c
  /\ net (deliver json_Marshal c' stats ws) !! c = net ws !! c.
Proof.
  intros Hne. unfold deliver.
  pose proof (conn_WriteJSON_other c c' stats (net ws) Hne) as Hw.
  destruct (conn_WriteJSON json_Marshal c' stats (net ws)) as [[err|] net1]; simpl in *.
  - by rewrite lookup_delete_ne, conn_Close_other.
  - done.
Qed.

(** A successful send: the peer has the snapshot, the registry is as before. *)
Lemma deliver_ok (c : Conn) stats (ws : WebServer) :
  delivers json_Marshal stats ws c ->
  exists st,
    net ws !! c = Some st
    /\ clients (deliver json_Marshal c stats ws) = clients ws
    /\ net (deliver json_Marshal c stats ws) !! c
       = Some {| closed := false; peerGone := false;
                 received := received st ++ [stats] |}.
Proof.
  unfold delivers, deliver, conn_WriteJSON.
  destruct (net ws !! c) as [st|]; [|done].
  destruct (closed st || peerGone st); [done|].
  destruct (json_Marshal stats); [|done].
  simpl. intros _. exists st. by rewrite lookup_insert_eq.
Qed.

(** A failed send: the client leaves the registry, its connection is
    closed, and it has received nothing. *)
Lemma deliver_fail (c : Conn) stats (ws : WebServer) :
  ~ delivers json_Marshal stats ws c ->
  clients (deliver json_Marshal c stats ws) !! c = None
  /\ forall st,
      net ws !! c = Some st ->
      net (deliver json_Marshal c stats ws) !! c
      = Some {| closed := true; peerGone := peerGone st; received := received st |}.
Proof.
  unfold delivers, deliver. intros Hfail.
  assert (snd (conn_WriteJSON json_Marshal c stats (net ws)) = net ws) as Hnet.
  { unfold conn_WriteJSON in *.
    destruct (net ws !! c) as [st|]; [|reflexivity].
    destruct (closed st || peerGone st); [reflexivity|].
    destruct (json_Marshal stats); [by destruct Hfail|reflexivity]. }
  destruct (conn_WriteJSON json_Marshal c stats (net ws)) as [[err|] net1];
    simpl in *; [|by destruct Hfail].
  subst net1. split; [apply lookup_delete_eq|].
  intros st Hst. by apply conn_Close_closed.
Qed.

(** The range over the registry, for an order that names each client once:
    a client is served exactly once; whether it receives the snapshot or is
    torn down depends on its own connection only. *)
Lemma rangeClients_spec (todo : list Conn) stats (ws : WebServer) :
  NoDup todo ->
  (forall c, c ∈ todo -> is_Some (clients ws !! c)) ->
  let ws' := rangeClients json_Marshal todo stats ws in
  forall c,
    (c ∉ todo -> clients ws' !! c = clients ws !! c /\ net ws' !! c = net ws !! c)
    /\ (c ∈ todo -> delivers json_Marshal stats ws c ->
        clients ws' !! c = clients ws !! c
        /\ exists st, net ws !! c = Some st
             /\ net ws' !! c = Some {| closed := false; peerGone := false;
                                       received := received st ++ [stats] |})
    /\ (c ∈ todo -> ~ delivers json_Marshal stats ws c ->
        clients ws' !! c = None
        /\ forall st, net ws !! c = Some st ->
             net ws' !! c = Some {| closed := true; peerGone := peerGone st;
                                    received := received st |}).
Proof.
  revert ws. induction todo as [|c0 todo IH]; intros ws Hnd Hreg; simpl.
  - intros c. split; [done|]. split; intros Hin; by apply elem_of_nil in Hin.
  - apply list.NoDup_cons in Hnd as [Hc0 Hnd].
    destruct (Hreg c0) as [b Hb]; [apply list_elem_of_here|]. rewrite Hb.
    set (ws1 := deliver json_Marshal c0 stats ws).
    assert (forall c, c ∈ todo -> is_Some (clients ws1 !! c)) as Hreg1.
    { intros c Hin. assert (c <> c0) as Hne by (by intros ->).
      destruct (deliver_other c c0 stats ws Hne) as [Hcl _].
      unfold ws1. rewrite Hcl. apply Hreg. by apply list_elem_of_further. }
    assert (forall c, c <> c0 -> delivers json_Marshal stats ws1 c <-> delivers json_Marshal stats ws c) as Hsame.
    { intros c Hne. rewrite !delivers_iff. unfold ws1.
      destruct (deliver_other c c0 stats ws Hne) as [_ Hnet]. by rewrite Hnet. }
    intros c. destruct (IH ws1 Hnd Hreg1 c) as (IHout & IHok & IHfail).
    destruct (decide (c = c0)) as [->|Hne].
    + (* the client served in this turn: the rest of the range leaves it alone *)
      destruct (IHout Hc0) as [Hcl Hnet]. rewrite Hcl, Hnet.
      split; [intros Hout; exfalso; apply Hout, list_elem_of_here|].
      split; intros _ Hsend.
      * destruct (deliver_ok c0 stats ws Hsend) as (st & Hst & Hclients & Hnet1).
        fold ws1 in Hclients, Hnet1. rewrite Hclients. split; [done|]. eauto.
      * destruct (deliver_fail c0 stats ws Hsend) as [Hgone Hclosed]. done.
    + destruct (deliver_other c c0 stats ws Hne) as [Hcl Hnet].
      fold ws1 in Hcl, Hnet. rewrite <- Hcl, <- Hnet.
      split; [|split].
      * intros Hout. apply IHout. intros Hin. apply Hout. by apply list_elem_of_further.
      * intros Hin Hsend. apply elem_of_cons in Hin as [->|Hin]; [done|].
        apply IHok; [done|]. by apply Hsame.
      * intros Hin Hsend. apply elem_of_cons in Hin as [->|Hin]; [done|].
        apply IHfail; [done|]. by rewrite Hsame.
Qed.

(** *** The mutex discipline *)

Lemma setHandler_eq (c : Conn) (pc : HandlerPC) (h : Hub) : setHandler c pc h c = pc.
Proof. unfold setHandler. apply fn_lookup_insert. Qed.

Lemma setHandler_ne (c c' : Conn) (pc : HandlerPC) (h : Hub) :
  c' <> c -> setHandler c pc h c' = hpc h c'.
Proof. intros Hne. unfold setHandler. by apply fn_lookup_insert_ne. Qed.

Lemma lockInv_initial (w : World) : lockInv (initial w).
Proof. unfold lockInv, initial. simpl. repeat split; intros; done. Qed.

(** A step of a handler: the goroutine of connection [c] moves to [pc], the
    mutex becomes [mu']. *)
Lemma lockInv_handler (h : Hub) (c : Conn) (pc : HandlerPC) (mu' : RWMutex)
    (server' : WebServer) :
  lockInv h ->
  readers mu' = readers (mu h) ->
  (holdsWrite pc = true ->
     writer mu' = true /\ readers mu' = 0
     /\ forall c', c' <> c -> holdsWrite (hpc h c') = false) ->
  (forall c', c' <> c -> holdsWrite (hpc h c') = true -> writer mu' = true) ->
  lockInv {| server := server'; mu := mu'; bpc := bpc h; hpc := setHandler c pc h |}.
Proof.
  intros (Hr & Hw & Hu) Hreaders Hself Hothers. unfold lockInv. simpl.
  split; [congruence|]. split.
  - intros c' Hc'. destruct (decide (c' = c)) as [->|Hne].
    + rewrite setHandler_eq in Hc'. by destruct (Hself Hc') as (? & ? & _).
    + rewrite setHandler_ne in Hc' by done. split; [by eapply Hothers|].
      rewrite Hreaders. by destruct (Hw c' Hc').
  - intros c1 c2 H1 H2.
    destruct (decide (c1 = c)) as [->|Hne1], (decide (c2 = c)) as [->|Hne2];
      [done|..].
    + rewrite setHandler_eq in H1. rewrite setHandler_ne in H2 by done.
      destruct (Hself H1) as (_ & _ & Hnone). rewrite Hnone in H2; done.
    + rewrite setHandler_eq in H2. rewrite setHandler_ne in H1 by done.
      destruct (Hself H2) as (_ & _ & Hnone). rewrite Hnone in H1; done.
    + rewrite setHandler_ne in H1, H2 by done. by apply Hu.
Qed.

(** A step of the broadcaster, or of the world around. *)
Lemma lockInv_broadcaster (h : Hub) (pc : BroadcastPC) (mu' : RWMutex)
    (server' : WebServer) :
  lockInv h ->
  readers mu' = (if holdsRead pc then 1 else 0) ->
  ((exists c, holdsWrite (hpc h c) = true) -> writer mu' = true /\ readers mu' = 0) ->
  lockInv {| server := server'; mu := mu'; bpc := pc; hpc := hpc h |}.
Proof.
  intros (Hr & Hw & Hu) Hreaders Hheld. unfold lockInv. simpl.
  split; [done|]. split; [|done]. intros c Hc. apply Hheld. by exists c.
Qed.

Lemma lockInv_step (h h' : Hub) :
  step ParseFloat order json_Marshal h h' -> lockInv h -> lockInv h'.
Proof.
  intros Hstep Hinv. pose proof Hinv as (Hr & Hw & Hu).
  assert (forall c pc, hpc h c = pc -> holdsWrite pc = true ->
            forall c', c' <> c -> holdsWrite (hpc h c') = false) as Halone.
  { intros c pc Hpc Hholds c' Hne.
    destruct (holdsWrite (hpc h c')) eqn:Hc'; [|done].
    destruct Hne. apply Hu; [done|]. by rewrite Hpc. }
  assert (writer (mu h) = false -> forall c, holdsWrite (hpc h c) = false) as Hfree.
  { intros Hfalse c. destruct (holdsWrite (hpc h c)) eqn:Hc; [|done].
    destruct (Hw c Hc). congruence. }
  destruct Hstep as
    [h c Hpc Hnew | h c Hpc Hwr Hrd | h c Hpc | h c Hpc | h c Hpc | h c Hpc
    | h c Hpc Hwr Hrd | h c Hpc | h c Hpc | h c st Hst
    | h Hpc | h stats todo Hpc Hwr Hrange | h stats c todo Hpc | h stats Hpc | h Hpc].
  - (* upgrade *)
    apply lockInv_handler; [done..| |]; [done|]. intros c' _ Hc'. by destruct (Hw c' Hc').
  - (* 74 Lock *)
    apply lockInv_handler; simpl; [done|done| |done].
    intros _. repeat split. intros c' _. by apply Hfree.
  - (* 75 insert *)
    apply lockInv_handler; [done..| |].
    + intros _. destruct (Hw c) as [? ?]; [by rewrite Hpc|].
      repeat split; [done..|]. by apply (Halone c HInsert).
    + intros c' _ Hc'. by destruct (Hw c' Hc').
  - (* 76 Unlock *)
    apply lockInv_handler; simpl; [done..| |]; [done|].
    intros c' Hne Hc'. by rewrite (Halone c HUnlock Hpc eq_refl c' Hne) in Hc'.
  - (* 92 ReadMessage fails *)
    apply lockInv_handler; [done..| |]; [done|]. intros c' _ Hc'. by destruct (Hw c' Hc').
  - (* 83 Close *)
    apply lockInv_handler; [done..| |]; [done|]. intros c' _ Hc'. by destruct (Hw c' Hc').
  - (* 84 Lock *)
    apply lockInv_handler; simpl; [done|done| |done].
    intros _. repeat split. intros c' _. by apply Hfree.
  - (* 85 delete *)
    apply lockInv_handler; [done..| |].
    + intros _. destruct (Hw c) as [? ?]; [by rewrite Hpc|].
      repeat split; [done..|]. by apply (Halone c RDelete).
    + intros c' _ Hc'. by destruct (Hw c' Hc').
  - (* 86 Unlock *)
    apply lockInv_handler; simpl; [done..| |]; [done|].
    intros c' Hne Hc'. by rewrite (Halone c RUnlock Hpc eq_refl c' Hne) in Hc'.
  - (* the peer goes away *)
    destruct h as [srv m b hp]. simpl in *.
    apply (lockInv_broadcaster {| server := srv; mu := m; bpc := b; hpc := hp |});
      [done|done|]. intros [c' Hc]. by apply (Hw c').
  - (* the tick *)
    rewrite Hpc in Hr. simpl in Hr.
    destruct (GetSystemStats ParseFloat order (world (server h))) as [[stats|err] w'];
      (apply lockInv_broadcaster; [done|done|]); intros [c' Hc]; by apply (Hw c').
  - (* 123 RLock *)
    rewrite Hpc in Hr. simpl in Hr.
    apply lockInv_broadcaster; simpl; [done|by rewrite Hr|].
    intros [c' Hc]. by rewrite Hfree in Hc.
  - (* one turn of the range *)
    rewrite Hpc in Hr. simpl in Hr.
    destruct h as [srv m b hp]. simpl in *.
    apply (lockInv_broadcaster {| server := srv; mu := m; bpc := b; hpc := hp |});
      [done|done|]. intros [c' Hc]. by apply (Hw c').
  - (* the range ends *)
    rewrite Hpc in Hr. simpl in Hr.
    destruct h as [srv m b hp]. simpl in *.
    apply (lockInv_broadcaster {| server := srv; mu := m; bpc := b; hpc := hp |});
      [done|done|]. intros [c' Hc]. by apply (Hw c').
  - (* 132 RUnlock *)
    rewrite Hpc in Hr. simpl in Hr.
    apply lockInv_broadcaster; simpl; [done|by rewrite Hr|].
    intros [c' Hc]. destruct (Hw c' Hc). congruence.
Qed.

Lemma lockInv_reachable (w : World) (h : Hub) :
  rtc (step ParseFloat order json_Marshal) (initial w) h -> lockInv h.
Proof.
  revert h. apply rtc_ind_r.
  - apply lockInv_initial.
  - intros h1 h2 _ Hstep IH. by apply (lockInv_step h1).
Qed.

Lemma lockInv_exclusive (h : Hub) (g1 g2 : Goroutine) :
  lockInv h -> g1 <> g2 -> mutating h g1 -> accessing h g2 -> False.
Proof.
  intros (Hr & Hw & Hu) Hne Hm Ha.
  assert (forall c, hpc h c = HInsert \/ hpc h c = RDelete ->
            holdsWrite (hpc h c) = true) as Hholds.
  { intros c [-> | ->]; reflexivity. }
  destruct g1 as [|c1], g2 as [|c2]; simpl in *.
  - done.
  - destruct Hm as (stats & c & todo & Hpc). rewrite Hpc in Hr. simpl in Hr.
    destruct (Hw c2 (Hholds c2 Ha)). congruence.
  - destruct Ha as (stats & todo & Hpc). rewrite Hpc in Hr. simpl in Hr.
    destruct (Hw c1 (Hholds c1 Hm)). congruence.
  - apply Hne. f_equal. apply Hu; by apply Hholds.
Qed.

(** While the broadcaster holds the read lock, the steps of the other
    goroutines leave [ws.clients] as it is: the range is not disturbed. *)
Lemma range_undisturbed (h h' : Hub) :
  lockInv h -> step ParseFloat order json_Marshal h h' ->
  holdsRead (bpc h) = true -> bpc h' = bpc h ->
  clients (server h') = clients (server h).
Proof.
  intros (Hr & Hw & _) Hstep Hread. rewrite Hread in Hr.
  assert (forall c, holdsWrite (hpc h c) = true -> False) as Hnone.
  { intros c Hc. destruct (Hw c Hc). congruence. }
  destruct Hstep as
    [h c Hpc Hnew | h c Hpc Hwr Hrd | h c Hpc | h c Hpc | h c Hpc | h c Hpc
    | h c Hpc Hwr Hrd | h c Hpc | h c Hpc | h c st Hst
    | h Hpc | h stats todo Hpc Hwr Hrange | h stats c todo Hpc | h stats Hpc | h Hpc];
    simpl; intros Hsame; try reflexivity.
  - destruct (Hnone c). by rewrite Hpc.
  - destruct (Hnone c). by rewrite Hpc.
  - by rewrite Hpc in Hread.
  - rewrite Hpc in Hsame. injection Hsame as Hsame.
    apply (f_equal length) in Hsame. simpl in Hsame. lia.
Qed.

(** *** Published snapshots *)

Lemma deliver_received (c' : Conn) stats (ws : WebServer) (c : Conn) (st : ConnState) :
  net (deliver json_Marshal c' stats ws) !! c = Some st ->
  exists st0,
    net ws !! c = Some st0
    /\ (received st = received st0 \/ received st = received st0 ++ [stats]).
Proof.
  destruct (decide (c = c')) as [->|Hne].
  - assert (forall st1, conn_Close c' (net ws) !! c' = Some st1 ->
              exists st0, net ws !! c' = Some st0 /\ received st1 = received st0)
      as Hclose.
    { intros st1. unfold conn_Close.
      destruct (net ws !! c') as [st0|] eqn:Hst0; [|by rewrite Hst0].
      rewrite lookup_insert_eq. intros [= <-]. eauto. }
    unfold deliver.
    destruct (conn_WriteJSON json_Marshal c' stats (net ws)) as [err net1] eqn:Hw.
    unfold conn_WriteJSON in Hw.
    destruct (net ws !! c') as [st0|] eqn:Hst0.
    + destruct (closed st0 || peerGone st0).
      { injection Hw as <- <-. simpl. intros Hst.
        destruct (Hclose _ Hst) as (? & [= <-] & ?). eauto. }
      destruct (json_Marshal stats); injection Hw as <- <-; simpl.
      * rewrite lookup_insert_eq. intros [= <-]. eauto.
      * intros Hst. destruct (Hclose _ Hst) as (? & [= <-] & ?). eauto.
    + injection Hw as <- <-. simpl. intros Hst.
      by destruct (Hclose _ Hst) as (? & [=] & ?).
  - destruct (deliver_other c c' stats ws Hne) as [_ ->]. eauto.
Qed.

Lemma rangeClients_received (todo : list Conn) stats (ws : WebServer) (c : Conn)
    (st : ConnState) :
  net (rangeClients json_Marshal todo stats ws) !! c = Some st ->
  exists st0 n,
    net ws !! c = Some st0 /\ received st = received st0 ++ replicate n stats.
Proof.
  revert ws. induction todo as [|c0 todo IH]; intros ws; simpl.
  - intros Hst. exists st, 0. by rewrite app_nil_r.
  - destruct (clients ws !! c0); [|apply IH].
    intros Hst. destruct (IH _ Hst) as (st1 & n & Hst1 & Hrec).
    destruct (deliver_received _ _ _ _ _ Hst1) as (st0 & Hst0 & [Hsame|Hone]).
    + exists st0, n. by rewrite Hrec, Hsame.
    + exists st0, (S n). by rewrite Hrec, Hone, <- app_assoc.
Qed.

(** C7. The timestamp of a snapshot is the instant at which
    [GetSystemStats] was entered: the readers have not run yet, and when
    they return the clock is later. One tick of the broadcast builds one
    snapshot, so whatever a client receives during the tick is that
    snapshot with that stamp. *)
Theorem Timestamp_is_invocation_time (ws : WebServer) (todo : list Conn) :
  exists stats w',
    GetSystemStats ParseFloat order (world ws) = (Ok stats, w')
    /\ SystemStats.Timestamp stats = clock (world ws)
    /\ (SystemStats.Timestamp stats
        < clock (snd (getCPUStats ParseFloat (world ws))) <= clock w')%Z
    /\ forall c st,
        net (broadcastTick ParseFloat order json_Marshal todo ws) !! c = Some st ->
        exists st0 n,
          net ws !! c = Some st0 /\ received st = received st0 ++ replicate n stats.
Proof.
  destruct (GetSystemStats_run ParseFloat order (world ws))
    as (w' & Hrun & _ & _ & Hfirst & Hclock).
  eexists _, w'. split; [exact Hrun|]. split; [reflexivity|].
  split; [simpl; split; [apply ticking_getCPUStats|exact Hclock]|].
  intros c st. unfold broadcastTick. rewrite Hrun.
  intros Hst. by apply rangeClients_received in Hst.
Qed.

(** C8. [handleStats] runs the snapshot build once for the request. The
    response is 200 with the JSON encoding of the snapshot exactly when the
    build returns no error, and 500 with the error text exactly when the
    build returns an error. With the system monitor as it is, the snapshot
    is fresh: its stamp is the instant of the request. *)
Theorem handleStats_status (build : IO (Result SystemStats.t)) (w : World) :
  let response := fst (handleStatsOf json_Marshal build w) in
  snd (handleStatsOf json_Marshal build w) = snd (build w)
  /\ (forall stats,
        fst (build w) = Ok stats ->
        status response = 200%Z
        /\ contentType response = "application/json"
        /\ body response = json_Encode json_Marshal stats
        /\ forall j, json_Marshal stats = Ok j -> body response = j +:+ newline)
  /\ (forall err,
        fst (build w) = Err err ->
        status response = 500%Z
        /\ contentType response = "text/plain; charset=utf-8"
        /\ body response = Error err +:+ newline)
  /\ (status response = 200%Z <-> exists stats, fst (build w) = Ok stats)
  /\ (status response = 500%Z <-> exists err, fst (build w) = Err err)
  /\ exists stats,
      fst (handleStats ParseFloat order json_Marshal w)
      = {| status := 200; contentType := "application/json";
           body := json_Encode json_Marshal stats |}
      /\ SystemStats.Timestamp stats = clock w.
Proof.
  intros response. unfold response, handleStatsOf, bind.
  destruct (build w) as [[stats|err] w'] eqn:Hbuild; simpl.
  - split; [reflexivity|]. split; [|split; [|split; [|split]]].
    + intros ? [= <-]. repeat split. intros j Hj. unfold json_Encode. by rewrite Hj.
    + intros ? [=].
    + split; eauto.
    + split; [done|]. by intros [? [=]].
    + destruct (GetSystemStats_run ParseFloat order w) as (w1 & Hrun & _).
      unfold handleStats, handleStatsOf, bind. rewrite Hrun. eexists. by split.
  - split; [reflexivity|]. split; [|split; [|split; [|split]]].
    + intros ? [=].
    + intros ? [= <-]. by repeat split.
    + split; [done|]. by intros [? [=]].
    + split; eauto.
    + destruct (GetSystemStats_run ParseFloat order w) as (w1 & Hrun & _).
      unfold handleStats, handleStatsOf, bind. rewrite Hrun. eexists. by split.
Qed.

(** C9. On every OS state [getCPUStats], [getTemperatureStats] and
    [getGPIOStats] return no error. So [GetSystemStats] never logs a warning
    for these three families (what it adds to the journal are memory and
    disk warnings only), it returns no error, and [handleStats] never
    answers 500. *)
Theorem infallible_readers (w : World) :
  (exists cpu, fst (getCPUStats ParseFloat w) = Ok cpu)
  /\ (exists temp, fst (getTemperatureStats ParseFloat order w) = Ok temp)
  /\ (exists gpio, fst (getGPIOStats w) = Ok gpio)
  /\ (exists stats w',
        GetSystemStats ParseFloat order w = (Ok stats, w')
        /\ journal w'
           = journal w
             ++ warning "Failed to get memory stats: %v" (valueOn getMemoryStats (os w))
             ++ warning "Failed to get disk stats: %v" (valueOn getDiskStats (os w)))
  /\ status (fst (handleStats ParseFloat order json_Marshal w)) = 200%Z
  /\ status (fst (handleStats ParseFloat order json_Marshal w)) <> 500%Z.
Proof.
  destruct (getCPUStats_value ParseFloat (os w)) as (cpu & Hcpu & _).
  destruct (getTemperatureStats_ok ParseFloat order (os w)) as (temp & Htemp).
  pose proof (getGPIOStats_value (os w)) as Hgpio.
  destruct (GetSystemStats_run ParseFloat order w) as (w' & Hrun & _ & Hjournal & _).
  rewrite Hcpu, Htemp, Hgpio in Hjournal. simpl in Hjournal.
  split; [|split; [|split; [|split; [|split]]]].
  - exists cpu. by rewrite valueOn_fst by apply reader_getCPUStats.
  - exists temp. by rewrite valueOn_fst by apply reader_getTemperatureStats.
  - eexists. rewrite valueOn_fst by apply reader_getGPIOStats. exact Hgpio.
  - eexists _, w'. split; [exact Hrun|]. rewrite Hjournal. by rewrite app_nil_r.
  - unfold handleStats, handleStatsOf, bind. by rewrite Hrun.
  - unfold handleStats, handleStatsOf, bind. by rewrite Hrun.
Qed.

(** C2. Whatever the goroutines of the server do, a goroutine that is about
    to insert into or delete from [ws.clients] is alone with it: no other
    goroutine is then reading, ranging over or changing the map, the range
    of a broadcast tick included; while that range is under way, no other
    goroutine changes the map. And in a tick, a client whose send fails
    leaves the registry with its connection closed, while every client
    whose send succeeds stays registered and receives the snapshot, once. *)
Theorem registry_exclusive_failures_isolated :
  (forall w h,
      rtc (step ParseFloat order json_Marshal) (initial w) h ->
      forall g1 g2, g1 <> g2 -> mutating h g1 -> accessing h g2 -> False)
  /\ (forall w h h',
        rtc (step ParseFloat order json_Marshal) (initial w) h ->
        step ParseFloat order json_Marshal h h' ->
        accessing h Broadcaster -> bpc h' = bpc h ->
        clients (server h') = clients (server h))
  /\ (forall todo ws,
        rangeOrder (clients ws) todo ->
        exists stats,
          fst (GetSystemStats ParseFloat order (world ws)) = Ok stats
          /\ let ws' := broadcastTick ParseFloat order json_Marshal todo ws in
             forall c,
               (is_Some (clients ws !! c) -> delivers json_Marshal stats ws c ->
                  clients ws' !! c = clients ws !! c
                  /\ exists st,
                      net ws !! c = Some st
                      /\ net ws' !! c
                         = Some {| closed := false; peerGone := false;
                                   received := received st ++ [stats] |})
               /\ (is_Some (clients ws !! c) -> ~ delivers json_Marshal stats ws c ->
                    clients ws' !! c = None
                    /\ forall st,
                        net ws !! c = Some st ->
                        net ws' !! c
                        = Some {| closed := true; peerGone := peerGone st;
                                  received := received st |})).
Proof.
  split; [|split].
  - intros w h Hrun g1 g2. apply lockInv_exclusive. by apply (lockInv_reachable w).
  - intros w h h' Hrun Hstep (stats & todo & Hpc).
    apply range_undisturbed; [by apply (lockInv_reachable w)|done|by rewrite Hpc].
  - intros todo ws [Hnd Hcover].
    destruct (GetSystemStats_run ParseFloat order (world ws)) as (w' & Hrun & _).
    set (stats := SystemStats.mk _ _ _ _ _ _) in Hrun.
    exists stats. split; [by rewrite Hrun|]. intros ws' c.
    unfold ws', broadcastTick. rewrite Hrun.
    assert (forall c', c' ∈ todo -> is_Some (clients (setWorld w' ws) !! c')) as Hreg
      by (intros c' Hin; by apply Hcover).
    destruct (rangeClients_spec todo stats (setWorld w' ws) Hnd Hreg c)
      as (_ & Hok & Hfail).
    split; intros Hin; [apply Hok|apply Hfail]; by apply Hcover.
Qed.

End WebFacts.

(** ** Degraded readings of the monitor *)

#[local] Hint Resolve reader_readLoadAverage reader_readCPUFrequency
  reader_readTemperature reader_getCPUStats reader_tempLoop
  reader_getTemperatureStats : reader.

Section MonitorDegraded.

Variable ParseFloat : string -> Result float.
Variable order : list (string * string).

Lemma cpuinfoLoop_passedOver (before rest : list string) :
  Forall (passedOver ParseFloat) before ->
  cpuinfoLoop ParseFloat (before ++ rest) = cpuinfoLoop ParseFloat rest.
Proof.
  induction 1 as [|l before Hl _ IH]; simpl; [reflexivity|].
  destruct (strings_HasPrefix l "cpu MHz") eqn:Hprefix; [|exact IH].
  destruct (Nat.eqb_spec (length (strings_Split l ":")) 2) as [Hlen|Hlen]; [|exact IH].
  destruct Hl as [Hl|[Hl|[err Hl]]]; [congruence|done|].
  by rewrite Hl.
Qed.

Lemma readCPUFrequency_value (o : OS) :
  valueOn (readCPUFrequency ParseFloat) o
  = match fs_read o "/proc/cpuinfo" with
    | Ok data => cpuinfoLoop ParseFloat (scannerLines data)
    | Err err => Err err
    end.
Proof.
  unfold readCPUFrequency. rewrite valueOn_bind; [|reader_auto..].
  unfold os_Open. rewrite valueOn_syscall.
  destruct (fs_read o "/proc/cpuinfo"); reflexivity.
Qed.

(** The number of pieces [strings.Split] makes: one more than there are
    separators. *)
Lemma splitFrom_length (sep : ascii) (cur s : list ascii) :
  length (splitFrom sep cur s) = S (length (filter (fun c => c = sep) s)).
Proof.
  revert cur. induction s as [|c s IH]; intros cur; simpl; [reflexivity|].
  destruct (Ascii.eqb_spec c sep) as [->|Hne].
  - rewrite filter_cons_True by done. simpl. by rewrite IH.
  - rewrite filter_cons_False by done. apply IH.
Qed.

(** X1. [readCPUFrequency] returns the number of the first line of
    /proc/cpuinfo that starts with "cpu MHz", splits at ":" into exactly two
    parts and whose second part, trimmed, parses as a float. Lines that
    fail one of the three tests are passed over, a "cpu MHz" line with no
    colon or with more than one included. When every line is passed over
    the error is "cpu frequency not found"; when the file cannot be opened
    the error is that of the open. *)
Theorem readCPUFrequency_first_number (w : World) :
  (forall err,
      fs_read (os w) "/proc/cpuinfo" = Err err ->
      fst (readCPUFrequency ParseFloat w) = Err err)
  /\ (forall data,
        fs_read (os w) "/proc/cpuinfo" = Ok data ->
        (forall before line after left right freq,
            scannerLines data = before ++ line :: after ->
            Forall (passedOver ParseFloat) before ->
            strings_HasPrefix line "cpu MHz" = true ->
            strings_Split line ":" = [left; right] ->
            ParseFloat (strings_TrimSpace right) = Ok freq ->
            fst (readCPUFrequency ParseFloat w) = Ok freq)
        /\ (Forall (passedOver ParseFloat) (scannerLines data) ->
            fst (readCPUFrequency ParseFloat w)
            = Err (errorString "cpu frequency not found")))
  /\ (forall line,
        length (filter (fun c => c = ":"%char) (bytes line)) <> 1 ->
        passedOver ParseFloat line).
Proof.
  rewrite valueOn_fst by apply reader_readCPUFrequency.
  rewrite readCPUFrequency_value.
  split; [|split].
  - intros err Herr. by rewrite Herr.
  - intros data Hdata. rewrite Hdata. split.
    + intros before line after left right freq Hlines Hbefore Hprefix Hsplit Hfreq.
      rewrite Hlines, cpuinfoLoop_passedOver by done. simpl.
      rewrite Hprefix, Hsplit. simpl. unfold index. simpl. by rewrite Hfreq.
    + intros Hall.
      rewrite <- (app_nil_r (scannerLines data)).
      by rewrite cpuinfoLoop_passedOver.
  - intros line Hcolons. right. left.
    unfold strings_Split. rewrite splitFrom_length. lia.
Qed.

Lemma getCPUStats_valueOn (o : OS) :
  valueOn (getCPUStats ParseFloat) o
  = Ok (CPUStats.mk
          (firstUsage (cpu_Percent o))
          (absorb [] (valueOn (readLoadAverage ParseFloat) o))
          0
          (absorb 0%float (valueOn (readCPUFrequency ParseFloat) o))).
Proof.
  unfold getCPUStats.
  rewrite valueOn_bind; [|reader_auto..]. rewrite valueOn_syscall.
  rewrite valueOn_bind; [|reader_auto..].
  rewrite valueOn_bind; [|reader_auto..].
  rewrite valueOn_ret.
  destruct (cpu_Percent o) as [[|usage0 usage]|err],
           (valueOn (readLoadAverage ParseFloat) o),
           (valueOn (readCPUFrequency ParseFloat) o); reflexivity.
Qed.

(** X2. [getCPUStats] fills each field from its own source and falls back
    to the zero value field by field: the usage is the first element of
    what [cpu.Percent] returns (zero on an error or an empty slice), the
    load average is what [readLoadAverage] returns (nil when it fails), the
    frequency is what [readCPUFrequency] returns (zero when it fails). A
    source that fails leaves the other fields as their sources give them. *)
Theorem getCPUStats_fields (w : World) :
  fst (getCPUStats ParseFloat w)
  = Ok (CPUStats.mk
          (firstUsage (cpu_Percent (os w)))
          (absorb [] (fst (readLoadAverage ParseFloat w)))
          0
          (absorb 0%float (fst (readCPUFrequency ParseFloat w)))).
Proof.
  rewrite valueOn_fst by apply reader_getCPUStats.
  rewrite (valueOn_fst (readLoadAverage _)) by apply reader_readLoadAverage.
  rewrite (valueOn_fst (readCPUFrequency _)) by apply reader_readCPUFrequency.
  apply getCPUStats_valueOn.
Qed.

Lemma loadsLoop_length (n i : nat) (fields : list string) (loads l : list float) :
  loadsLoop ParseFloat n i fields loads = Ok l -> length l = length loads.
Proof.
  revert i loads. induction n as [|n IH]; intros i loads; simpl.
  - by intros [= <-].
  - destruct (ParseFloat (index fields i)) as [v|err]; [|done].
    intros Hl. apply IH in Hl. by rewrite length_insert in Hl.
Qed.

(** X3. In every snapshot the load average of the CPU family has exactly
    three entries, or none: three when [readLoadAverage] succeeds (they are
    its result), none when it fails. *)
Theorem LoadAverage_three_or_none (w : World) :
  exists stats,
    fst (GetSystemStats ParseFloat order w) = Ok stats
    /\ let loads := CPUStats.LoadAverage (SystemStats.CPU stats) in
       match fst (readLoadAverage ParseFloat w) with
       | Ok l => loads = l /\ length loads = 3
       | Err _ => loads = []
       end.
Proof.
  destruct (GetSystemStats_run ParseFloat order w) as (w' & Hrun & _).
  rewrite Hrun. eexists. split; [reflexivity|]. simpl.
  rewrite getCPUStats_valueOn. simpl.
  rewrite (valueOn_fst (readLoadAverage _)) by apply reader_readLoadAverage.
  rewrite readLoadAverage_value.
  destruct (fs_read (os w) "/proc/loadavg") as [data|err]; [|reflexivity].
  cbv zeta. destruct (length (strings_Fields data) <? 3); [reflexivity|].
  destruct (loadsLoop ParseFloat 3 0 (strings_Fields data) (replicate 3 0%float))
    as [l|err] eqn:Hl; [|reflexivity].
  split; [reflexivity|]. cbn [absorb]. by apply loadsLoop_length in Hl.
Qed.


End MonitorDegraded.

(** *** Disk and GPIO readings in detail *)

(** The digit loop keeps its value within 64 bits. *)
Lemma parseUintLoop_range (n v : Z) (s : list ascii) :
  parseUintLoop n s = UintValue v -> (0 <= n <= maxUint64)%Z -> (0 <= v <= maxUint64)%Z.
Proof.
  revert n. induction s as [|c s IH]; intros n; simpl.
  - by intros [= <-].
  - destruct (digitOf c) as [d|] eqn:Hd; [|done].
    apply digitOf_range in Hd.
    destruct (maxUint64 / 10 + 1 <=? n)%Z; [done|].
    destruct (Z.ltb_spec maxUint64 (n * 10 + d)); [done|].
    intros Hv Hn. apply (IH _ Hv). lia.
Qed.

(** A numeral that does not fit 64 bits is a range error. *)
Lemma parseUintLoop_overflow (n : Z) (ds : list ascii) :
  Forall (fun c => is_Some (digitOf c)) ds ->
  (0 <= n <= maxUint64)%Z -> (maxUint64 < digitsValue n ds)%Z ->
  parseUintLoop n ds = UintRange.
Proof.
  intros Hds. revert n. induction Hds as [|c ds [d Hd] Hds IH]; intros n Hn Hmax; simpl.
  - simpl in Hmax. lia.
  - simpl in Hmax. rewrite Hd in *. simpl in Hmax.
    pose proof (digitOf_range _ _ Hd) as Hd09.
    destruct (maxUint64 / 10 + 1 <=? n)%Z; [done|].
    destruct (Z.ltb_spec maxUint64 (n * 10 + d)); [done|].
    apply IH; [lia|done].
Qed.

Lemma strconv_ParseUint_range (s : string) :
  (0 <= fst (strconv_ParseUint s) <= maxUint64)%Z.
Proof.
  assert (0 <= maxUint64)%Z as Hmax by done.
  unfold strconv_ParseUint.
  destruct (bytes s) as [|c ds] eqn:Hs; [simpl; lia|].
  destruct (parseUintLoop 0 (c :: ds)) as [v| |] eqn:Hv; simpl; [|lia..].
  apply (parseUintLoop_range 0 v (c :: ds)); [done|lia].
Qed.

Lemma strconv_ParseUint_overflow (s : string) :
  Forall (fun c => is_Some (digitOf c)) (bytes s) ->
  (maxUint64 < digitsValue 0 (bytes s))%Z ->
  fst (strconv_ParseUint s) = maxUint64.
Proof.
  intros Hds Hmax. unfold strconv_ParseUint.
  destruct (bytes s) as [|c ds] eqn:Hs; [simpl in Hmax; done|].
  by rewrite (parseUintLoop_overflow 0 (c :: ds)) by done.
Qed.

Lemma strconv_ParseUint_no_digit (s : string) (c : ascii) (r : list ascii) :
  bytes s = c :: r -> digitOf c = None -> fst (strconv_ParseUint s) = 0%Z.
Proof.
  intros Hs Hc. unfold strconv_ParseUint. rewrite Hs. simpl. by rewrite Hc.
Qed.

Lemma bytes_text (l : list ascii) : bytes (text l) = l.
Proof. apply String.list_ascii_of_string_of_list_ascii. Qed.

(** [strings.Fields] returns no empty field. *)
Lemma fieldsFrom_nonempty (cur s : list ascii) (f : string) :
  f ∈ fieldsFrom cur s -> bytes f <> [].
Proof.
  assert (forall c cur', bytes (text (rev (c :: cur'))) <> []) as Hcur.
  { intros c cur'. rewrite bytes_text. simpl. by destruct (rev cur'). }
  revert cur. induction s as [|c s IH]; intros cur; simpl.
  - destruct cur as [|c0 cur]; [by rewrite elem_of_nil|].
    rewrite list_elem_of_singleton. intros ->. apply Hcur.
  - destruct (isSpace c); [|apply IH].
    destruct cur as [|c0 cur]; [apply IH|].
    rewrite elem_of_cons. intros [->|Hin]; [apply Hcur|by apply (IH [])].
Qed.

Lemma strings_Fields_nonempty (s f : string) : f ∈ strings_Fields s -> bytes f <> [].
Proof. apply fieldsFrom_nonempty. Qed.

Lemma diskstatsLoop_range (lines : list string) :
  (0 <= DiskIOStats.Read (diskstatsLoop lines) <= maxUint64)%Z
  /\ (0 <= DiskIOStats.Write (diskstatsLoop lines) <= maxUint64)%Z.
Proof.
  induction lines as [|line rest IH]; simpl; [done|].
  destruct (isDiskLine (strings_Fields line)); [|exact IH].
  simpl. split; apply strconv_ParseUint_range.
Qed.

(** X5. Whatever /proc/diskstats holds, the counters [readDiskIO] returns
    are 64-bit unsigned numbers. For the first matching line: a field that
    is a decimal numeral reads as its value when that is below 2^64 and as
    2^64-1 when it is not; an empty field cannot occur, and a field that
    starts with a byte that is no digit reads as 0. No such field makes
    [readDiskIO] fail. *)
Theorem readDiskIO_counters (w : World) (data : string) :
  fs_read (os w) "/proc/diskstats" = Ok data ->
  exists io,
    fst (readDiskIO w) = Ok io
    /\ (0 <= DiskIOStats.Read io <= maxUint64)%Z
    /\ (0 <= DiskIOStats.Write io <= maxUint64)%Z
    /\ forall line,
        firstDiskLine data line ->
        forall (i : nat) (field : string) (counter : Z),
          (i = 3 /\ counter = DiskIOStats.Read io
           \/ i = 7 /\ counter = DiskIOStats.Write io) ->
          strings_Fields line !! i = Some field ->
          bytes field <> []
          /\ (Forall (fun c => is_Some (digitOf c)) (bytes field) ->
              counter = Z.min (digitsValue 0 (bytes field)) maxUint64)
          /\ (forall c r, bytes field = c :: r -> digitOf c = None -> counter = 0%Z).
Proof.
  intros Hdata.
  rewrite valueOn_fst by apply reader_readDiskIO.
  rewrite readDiskIO_value, Hdata.
  eexists. split; [reflexivity|].
  destruct (diskstatsLoop_range (scannerLines data)) as [Hr Hw].
  split; [exact Hr|]. split; [exact Hw|].
  intros line (before & after & Hlines & Hline & Hbefore) i field counter Hi Hfield.
  rewrite Hlines, (diskstatsLoop_first before after line Hline Hbefore) in Hi.
  simpl in Hi.
  assert (counter = fst (strconv_ParseUint field)) as ->.
  { unfold index in Hi. destruct Hi as [[-> ->]|[-> ->]]; by rewrite Hfield. }
  assert (bytes field <> []) as Hne.
  { apply (strings_Fields_nonempty line). by apply list_elem_of_lookup_2 in Hfield. }
  split; [exact Hne|]. split.
  - intros Hds.
    destruct (Z.le_gt_cases (digitsValue 0 (bytes field)) maxUint64) as [Hle|Hgt].
    + rewrite strconv_ParseUint_numeral by done. simpl. lia.
    + rewrite strconv_ParseUint_overflow by (done || lia). lia.
  - intros c r Hs Hc. by apply (strconv_ParseUint_no_digit field c r).
Qed.

(** X6. [getDiskStats] fails exactly when [disk.Usage] of the root file
    system fails, with that error, and then /proc/diskstats is not even
    opened. When [disk.Usage] succeeds the result carries its four figures
    and the counters of [readDiskIO]; an unreadable /proc/diskstats costs
    the counters only, which stay zero. *)
Theorem getDiskStats_usage_decides (w : World) :
  (forall err,
      disk_Usage (os w) "/" = Err err -> getDiskStats w = (Err err, tick w))
  /\ (forall usage,
        disk_Usage (os w) "/" = Ok usage ->
        let io := absorb DiskIOStats.zero (fst (readDiskIO w)) in
        fst (getDiskStats w)
        = Ok (DiskStats.mk (UsageStat.Total usage) (UsageStat.Used usage)
                (UsageStat.Free usage) (UsageStat.UsedPercent usage)
                (DiskIOStats.Read io) (DiskIOStats.Write io))
        /\ (forall err,
              fs_read (os w) "/proc/diskstats" = Err err ->
              fst (getDiskStats w)
              = Ok (DiskStats.mk (UsageStat.Total usage) (UsageStat.Used usage)
                      (UsageStat.Free usage) (UsageStat.UsedPercent usage) 0 0)))
  /\ ((exists err, fst (getDiskStats w) = Err err)
      <-> exists err, disk_Usage (os w) "/" = Err err).
Proof.
  assert (forall usage,
            disk_Usage (os w) "/" = Ok usage ->
            fst (getDiskStats w)
            = Ok (let io := absorb DiskIOStats.zero (valueOn readDiskIO (os w)) in
                  DiskStats.mk (UsageStat.Total usage) (UsageStat.Used usage)
                    (UsageStat.Free usage) (UsageStat.UsedPercent usage)
                    (DiskIOStats.Read io) (DiskIOStats.Write io))) as Hok.
  { intros usage Husage. rewrite valueOn_fst by apply reader_getDiskStats.
    unfold getDiskStats. rewrite valueOn_bind; [|reader_auto..].
    rewrite valueOn_syscall, Husage.
    rewrite valueOn_bind; [|reader_auto..].
    by destruct (valueOn readDiskIO (os w)). }
  split; [|split].
  - intros err Husage. unfold getDiskStats, bind, syscall. by rewrite Husage.
  - intros usage Husage io. unfold io.
    rewrite (valueOn_fst readDiskIO) by apply reader_readDiskIO.
    split; [by apply Hok|].
    intros err Hdata. rewrite (Hok usage Husage), readDiskIO_value, Hdata. reflexivity.
  - split.
    + intros [err Herr]. destruct (disk_Usage (os w) "/") as [usage|err'] eqn:Husage.
      * by rewrite (Hok usage) in Herr.
      * by exists err'.
    + intros [err Husage]. exists err.
      rewrite valueOn_fst by apply reader_getDiskStats.
      by apply getDiskStats_failure.
Qed.

(** [strings.TrimSpace] leaves no white space at either end. *)
Lemma trimLeft_head (s : list ascii) (c : ascii) :
  head (trimLeft s) = Some c -> isSpace c = false.
Proof.
  induction s as [|c0 s IH]; simpl; [done|].
  destruct (isSpace c0) eqn:Hc0; [exact IH|]. simpl. by intros [= <-].
Qed.

Lemma trimLeft_suffix (s : list ascii) : trimLeft s `suffix_of` s.
Proof.
  induction s as [|c s IH]; simpl; [done|].
  destruct (isSpace c); [by apply suffix_cons_r|done].
Qed.

Lemma rev_reverse {A} (l : list A) : rev l = reverse l.
Proof. unfold reverse. apply rev_alt. Qed.

Lemma strings_TrimSpace_trimmed (s : string) (c : ascii) :
  head (bytes (strings_TrimSpace s)) = Some c
  \/ list.last (bytes (strings_TrimSpace s)) = Some c ->
  isSpace c = false.
Proof.
  unfold strings_TrimSpace. rewrite bytes_text.
  rewrite (rev_reverse (trimLeft _)), head_reverse, last_reverse.
  intros [Hlast|Hhead]; [|by apply trimLeft_head in Hhead].
  destruct (trimLeft_suffix (rev (trimLeft (bytes s)))) as [k Hk].
  assert (list.last (rev (trimLeft (bytes s))) = Some c) as Hc.
  { rewrite Hk, last_app. by rewrite Hlast. }
  rewrite rev_reverse, last_reverse in Hc. by apply trimLeft_head in Hc.
Qed.

(** [strconv.Atoi] returns a 64-bit signed number. *)
Lemma strconv_Atoi_range (s : string) (v : Z) :
  strconv_Atoi s = Ok v -> (- 2 ^ 63 <= v < 2 ^ 63)%Z.
Proof.
  assert (0 <= maxUint64)%Z as Hmax by done.
  unfold strconv_Atoi.
  destruct (match bytes s with
            | [] => (false, bytes s)
            | c :: r =>
                if Ascii.eqb c "-" then (true, r)
                else if Ascii.eqb c "+" then (false, r) else (false, bytes s)
            end) as [neg digits].
  destruct digits as [|d ds]; [done|].
  destruct (parseUintLoop 0 (d :: ds)) as [n| |] eqn:Hn; [|done..].
  apply parseUintLoop_range in Hn; [|lia].
  destruct neg.
  - destruct (Z.ltb_spec (2 ^ 63) n); [done|]. intros [= <-]. lia.
  - destruct (Z.leb_spec (2 ^ 63) n); [done|]. intros [= <-]. lia.
Qed.

(** X7. [readGPIOState] reads the direction file first. When that fails it
    returns the error with an empty mode and does not touch the value file.
    Otherwise the mode is the direction without surrounding white space,
    also when the value cannot be read or is no integer; the value is then
    reported as 0 with the error. Without error the value is the integer
    the value file holds, a 64-bit signed number. *)
Theorem readGPIOState_outcomes (gpioPath : string) (w : World) :
  (forall err,
      fs_read (os w) (filepath_Join gpioPath "direction") = Err err ->
      readGPIOState gpioPath w = ((0%Z, EmptyString, Some err), tick w))
  /\ (forall direction,
        fs_read (os w) (filepath_Join gpioPath "direction") = Ok direction ->
        let mode := strings_TrimSpace direction in
        snd (readGPIOState gpioPath w) = tick (tick w)
        /\ snd (fst (fst (readGPIOState gpioPath w))) = mode
        /\ (forall c, head (bytes mode) = Some c \/ list.last (bytes mode) = Some c ->
              isSpace c = false)
        /\ (forall err,
              fs_read (os w) (filepath_Join gpioPath "value") = Err err ->
              fst (readGPIOState gpioPath w) = (0%Z, mode, Some err))
        /\ (forall valueData err,
              fs_read (os w) (filepath_Join gpioPath "value") = Ok valueData ->
              strconv_Atoi (strings_TrimSpace valueData) = Err err ->
              fst (readGPIOState gpioPath w) = (0%Z, mode, Some err))
        /\ (forall valueData value,
              fs_read (os w) (filepath_Join gpioPath "value") = Ok valueData ->
              strconv_Atoi (strings_TrimSpace valueData) = Ok value ->
              fst (readGPIOState gpioPath w) = (value, mode, None)
              /\ (- 2 ^ 63 <= value < 2 ^ 63)%Z)).
Proof.
  split.
  - intros err Hdir. unfold readGPIOState, bind, ioutil_ReadFile, syscall.
    by rewrite Hdir.
  - intros direction Hdir mode.
    assert (readGPIOState gpioPath w
            = (match fs_read (os w) (filepath_Join gpioPath "value") with
               | Err err => (0%Z, mode, Some err)
               | Ok valueData =>
                   match strconv_Atoi (strings_TrimSpace valueData) with
                   | Err err => (0%Z, mode, Some err)
                   | Ok value => (value, mode, None)
                   end
               end, tick (tick w))) as Hrun.
    { unfold readGPIOState, bind, ioutil_ReadFile, syscall. rewrite Hdir. simpl.
      destruct (fs_read (os w) (filepath_Join gpioPath "value")) as [valueData|err];
        [|reflexivity].
      by destruct (strconv_Atoi (strings_TrimSpace valueData)). }
    rewrite Hrun. simpl.
    split; [reflexivity|]. split.
    { destruct (fs_read (os w) (filepath_Join gpioPath "value")) as [valueData|err];
        [|reflexivity].
      by destruct (strconv_Atoi (strings_TrimSpace valueData)). }
    split; [apply strings_TrimSpace_trimmed|].
    split; [|split].
    + intros err Hval. by rewrite Hval.
    + intros valueData err Hval Hatoi. by rewrite Hval, Hatoi.
    + intros valueData value Hval Hatoi. rewrite Hval, Hatoi.
      split; [reflexivity|]. by apply strconv_Atoi_range in Hatoi.
Qed.

(** ** The life of a connection *)

Section WebInvariants.

Variable ParseFloat : string -> Result float.
Variable order : list (string * string).
Variable json_Marshal : SystemStats.t -> Result string.

(** What one turn of the range does to a connection: nothing, or it closes
    it, or (the client of this turn, when it is alive) it hands it the
    snapshot. *)
Lemma deliver_conn (c' : Conn) stats (ws : WebServer) (c : Conn) :
  match net ws !! c with
  | None => net (deliver json_Marshal c' stats ws) !! c = None
  | Some st =>
      exists st',
        net (deliver json_Marshal c' stats ws) !! c = Some st'
        /\ (st' = st
            \/ st' = {| closed := true; peerGone := peerGone st; received := received st |}
            \/ (c = c' /\ dead st = false
                /\ st' = {| closed := false; peerGone := false;
                            received := received st ++ [stats] |}))
  end.
Proof.
  destruct (decide (c = c')) as [->|Hne].
  - unfold deliver, conn_WriteJSON, dead.
    destruct (net ws !! c') as [st|] eqn:Hst.
    + destruct (closed st || peerGone st) eqn:Hdead.
      { simpl. rewrite (conn_Close_closed _ _ st Hst). eauto. }
      destruct (json_Marshal stats); simpl.
      * rewrite lookup_insert_eq. eauto 10.
      * rewrite (conn_Close_closed _ _ st Hst). eauto.
    + simpl. unfold conn_Close. by rewrite Hst.
  - destruct (deliver_other json_Marshal c c' stats ws Hne) as [_ ->].
    destruct (net ws !! c); eauto.
Qed.

Lemma rangeOne_conn (c' : Conn) stats (ws : WebServer) (c : Conn) :
  match net ws !! c with
  | None => net (rangeClients json_Marshal [c'] stats ws) !! c = None
  | Some st =>
      exists st',
        net (rangeClients json_Marshal [c'] stats ws) !! c = Some st'
        /\ (st' = st
            \/ st' = {| closed := true; peerGone := peerGone st; received := received st |}
            \/ (c = c' /\ dead st = false
                /\ st' = {| closed := false; peerGone := false;
                            received := received st ++ [stats] |}))
  end.
Proof.
  simpl. destruct (clients ws !! c'); [apply deliver_conn|].
  destruct (net ws !! c); eauto.
Qed.

Lemma deliver_clients (c' : Conn) stats (ws : WebServer) :
  clients (deliver json_Marshal c' stats ws) = clients ws
  \/ clients (deliver json_Marshal c' stats ws) = delete c' (clients ws).
Proof.
  unfold deliver.
  destruct (conn_WriteJSON json_Marshal c' stats (net ws)) as [[err|] net1]; auto.
Qed.

Lemma deliver_world (c' : Conn) stats (ws : WebServer) :
  os (world (deliver json_Marshal c' stats ws)) = os (world ws)
  /\ clock (world (deliver json_Marshal c' stats ws)) = clock (world ws).
Proof.
  unfold deliver.
  destruct (conn_WriteJSON json_Marshal c' stats (net ws)) as [[err|] net1]; auto.
Qed.

(** The range never adds a client, never touches a connection that is not
    registered, and leaves the host and the clock alone. *)
Lemma rangeClients_frame (todo : list Conn) stats (ws : WebServer) :
  let ws' := rangeClients json_Marshal todo stats ws in
  clients ws' ⊆ clients ws
  /\ (forall c, clients ws !! c = None -> net ws' !! c = net ws !! c)
  /\ os (world ws') = os (world ws)
  /\ clock (world ws') = clock (world ws).
Proof.
  revert ws. induction todo as [|c0 todo IH]; intros ws; simpl; [done|].
  destruct (clients ws !! c0) as [b|] eqn:Hc0; [|apply IH].
  destruct (IH (deliver json_Marshal c0 stats ws)) as (Hsub & Hnet & Hos & Hclock).
  destruct (deliver_world c0 stats ws) as [Hos0 Hclock0].
  assert (clients (deliver json_Marshal c0 stats ws) ⊆ clients ws) as Hsub0.
  { destruct (deliver_clients c0 stats ws) as [-> | ->]; [done|apply delete_subseteq]. }
  split; [by etrans|]. split; [|split; congruence].
  intros c Hc. rewrite Hnet.
  - assert (c <> c0) as Hne by congruence.
    by destruct (deliver_other json_Marshal c c0 stats ws Hne).
  - destruct (clients (deliver json_Marshal c0 stats ws) !! c) as [b'|] eqn:Hc'; [|done].
    rewrite map_subseteq_spec in Hsub0. apply Hsub0 in Hc'. congruence.
Qed.

(** What a step of any goroutine does to a connection: it is created, or
    left alone, or closed, or its peer goes away, or (in a turn of the
    range, when it is alive) it is handed the snapshot of the tick. *)
Lemma step_conn (h h' : Hub) (c : Conn) :
  step ParseFloat order json_Marshal h h' ->
  match net (server h) !! c with
  | None =>
      forall st',
        net (server h') !! c = Some st' ->
        st' = newConn /\ hpc h c = HIdle /\ hpc h' c = HLock
  | Some st =>
      exists st',
        net (server h') !! c = Some st'
        /\ (st' = st
            \/ st' = {| closed := true; peerGone := peerGone st; received := received st |}
            \/ st' = {| closed := closed st; peerGone := true; received := received st |}
            \/ (dead st = false
                /\ exists stats todo,
                    bpc h = BRange stats (c :: todo) /\ bpc h' = BRange stats todo
                    /\ st' = {| closed := false; peerGone := false;
                                received := received st ++ [stats] |}))
  end.
Proof.
  assert (forall n : gmap Conn ConnState,
            match n !! c with
            | None =>
                forall st',
                  n !! c = Some st' ->
                  st' = newConn /\ hpc h c = HIdle /\ hpc h' c = HLock
            | Some st =>
                exists st',
                  n !! c = Some st'
                  /\ (st' = st
                      \/ st' = {| closed := true; peerGone := peerGone st;
                                  received := received st |}
                      \/ st' = {| closed := closed st; peerGone := true;
                                  received := received st |}
                      \/ (dead st = false
                          /\ exists stats todo,
                              bpc h = BRange stats (c :: todo) /\ bpc h' = BRange stats todo
                              /\ st' = {| closed := false; peerGone := false;
                                          received := received st ++ [stats] |}))
            end) as Hsame.
  { intros n. destruct (n !! c) as [st|] eqn:Hst; [eauto|done]. }
  intros Hstep.
  destruct Hstep as
    [h c0 Hpc Hnew | h c0 Hpc Hwr Hrd | h c0 Hpc | h c0 Hpc | h c0 Hpc | h c0 Hpc
    | h c0 Hpc Hwr Hrd | h c0 Hpc | h c0 Hpc | h c0 st0 Hst0
    | h Hpc | h stats todo Hpc Hwr Hrange | h stats c0 todo Hpc | h stats Hpc | h Hpc];
    simpl in *; try apply Hsame.
  - (* upgrade *)
    destruct (decide (c = c0)) as [->|Hne].
    + rewrite Hnew, lookup_insert_eq, setHandler_eq. by intros st' [= <-].
    + rewrite lookup_insert_ne by done. apply Hsame.
  - (* 83 Close *)
    destruct (decide (c = c0)) as [->|Hne].
    + destruct (net (server h) !! c0) as [st|] eqn:Hst.
      * rewrite (conn_Close_closed _ _ st Hst). eauto.
      * unfold conn_Close. rewrite Hst. by rewrite Hst.
    + rewrite conn_Close_other by done. apply Hsame.
  - (* the peer goes away *)
    destruct (decide (c = c0)) as [->|Hne].
    + rewrite Hst0, lookup_insert_eq. eauto 6.
    + rewrite lookup_insert_ne by done. apply Hsame.
  - (* the tick *)
    destruct (GetSystemStats ParseFloat order (world (server h))) as [[stats|err] w'];
      simpl; apply Hsame.
  - (* one turn of the range *)
    pose proof (rangeOne_conn c0 stats (server h) c) as Hturn.
    destruct (net (server h) !! c) as [st|] eqn:Hst.
    + destruct Hturn as (st' & Hst' & [->|[->|(-> & Hdead & ->)]]); eauto 12.
    + simpl in Hturn. rewrite Hturn. done.
Qed.

(** X8. Once a connection is closed on the server side, or its peer is
    gone, nothing the server does afterwards delivers another snapshot to
    it or brings it back: it stays dead with what it had received. *)
Theorem dead_connection_receives_nothing (h h' : Hub) (c : Conn) (st : ConnState) :
  rtc (step ParseFloat order json_Marshal) h h' ->
  net (server h) !! c = Some st ->
  dead st = true ->
  exists st',
    net (server h') !! c = Some st' /\ dead st' = true /\ received st' = received st.
Proof.
  intros Hrun. revert st. induction Hrun as [h|h h1 h' Hstep _ IH]; intros st Hst Hdead.
  - eauto.
  - pose proof (step_conn h h1 c Hstep) as Hconn. rewrite Hst in Hconn.
    destruct Hconn as (st1 & Hst1 & Hcases).
    assert (dead st1 = true /\ received st1 = received st) as [Hdead1 Hrec1].
    { unfold dead in *.
      destruct Hcases as [->|[->|[->|(Halive & _)]]]; simpl; [done|done| |congruence].
      split; [apply orb_true_r|done]. }
    destruct (IH st1 Hst1 Hdead1) as (st' & Hst' & Hdead' & Hrec').
    exists st'. split; [done|]. split; [done|congruence].
Qed.

Lemma rangeOne_clients (c' : Conn) stats (ws : WebServer) (c : Conn) :
  is_Some (clients (rangeClients json_Marshal [c'] stats ws) !! c) ->
  is_Some (clients ws !! c).
Proof.
  simpl. destruct (clients ws !! c') eqn:Hc'; [|done].
  destruct (deliver_clients c' stats ws) as [-> | ->]; [done|].
  rewrite lookup_delete_is_Some. by intros [_ ?].
Qed.

Lemma registryInv_initial (w : World) : registryInv (initial w).
Proof.
  intros c. unfold initial. simpl. rewrite !lookup_empty.
  split; [by intros [? ?]|]. split; [done|done].
Qed.

Lemma registryInv_step (h h' : Hub) :
  step ParseFloat order json_Marshal h h' -> registryInv h -> registryInv h'.
Proof.
  intros Hstep Hinv c.
  pose proof (step_conn h h' c Hstep) as Hconn.
  destruct (Hinv c) as (Hreg & Hidle & Hclosed).
  assert (forall st', net (server h') !! c = Some st' ->
            (exists st, net (server h) !! c = Some st
                        /\ (closed st = true -> closed st' = true))
            \/ (hpc h c = HIdle /\ hpc h' c = HLock)) as Hback.
  { intros st' Hst'. destruct (net (server h) !! c) as [st|] eqn:Hst.
    - left. exists st. split; [done|].
      destruct Hconn as (st1 & Hst1 & Hcases).
      assert (st1 = st') as -> by congruence.
      unfold dead in Hcases.
      destruct Hcases as [->|[->|[->|(Halive & _)]]]; simpl; try done.
      intros Hc. rewrite Hc in Halive. done.
    - right. by destruct (Hconn st' Hst') as (_ & ? & ?). }
  assert (forall st, net (server h) !! c = Some st ->
            exists st', net (server h') !! c = Some st'
                        /\ (closed st = true -> closed st' = true)) as Hforth.
  { intros st Hst. rewrite Hst in Hconn. destruct Hconn as (st' & Hst' & Hcases).
    exists st'. split; [done|]. unfold dead in Hcases.
    destruct Hcases as [->|[->|[->|(Halive & _)]]]; simpl; try done.
    intros Hc. rewrite Hc in Halive. done. }
  assert (hpc h' c = hpc h c -> clients (server h') !! c = clients (server h) !! c
          \/ clients (server h') !! c = None ->
          (is_Some (clients (server h') !! c) -> mayBeRegistered (hpc h' c) = true)
          /\ (hpc h' c = HIdle <-> net (server h') !! c = None)
          /\ (pastClose (hpc h' c) = true ->
              exists st, net (server h') !! c = Some st /\ closed st = true)) as Hkeep.
  { intros Hpc Hcl. rewrite Hpc. split; [|split].
    - destruct Hcl as [-> | ->]; [done|by intros [? ?]].
    - rewrite Hidle. split.
      + intros Hnone. destruct (net (server h') !! c) as [st'|] eqn:Hst'; [|done].
        destruct (Hback st' eq_refl) as [(st & Hst & _)|[? ?]]; congruence.
      + intros Hnone. destruct (net (server h) !! c) as [st|] eqn:Hst; [|done].
        destruct (Hforth st eq_refl) as (st' & Hst' & _). congruence.
    - intros Hpast. destruct (Hclosed Hpast) as (st & Hst & Hc).
      destruct (Hforth st Hst) as (st' & Hst' & Hc'). eauto. }
  clear Hconn.
  destruct Hstep as
    [h c0 Hpc Hnew | h c0 Hpc Hwr Hrd | h c0 Hpc | h c0 Hpc | h c0 Hpc | h c0 Hpc
    | h c0 Hpc Hwr Hrd | h c0 Hpc | h c0 Hpc | h c0 st0 Hst0
    | h Hpc | h stats todo Hpc Hwr Hrange | h stats c0 todo Hpc | h stats Hpc | h Hpc];
    simpl in *;
    try (lazymatch goal with |- context [setHandler _ _ _] => idtac end;
         destruct (decide (c = c0)) as [->|Hne];
         [rewrite ?setHandler_eq in *
         |rewrite ?setHandler_ne in * by done;
          apply Hkeep;
          [reflexivity|left; by rewrite ?lookup_insert_ne, ?lookup_delete_ne]]);
    try (apply Hkeep; [reflexivity|by left]).
  - (* upgrade *)
    rewrite lookup_insert_eq. split; [|split; [done|done]].
    intros Hin. apply Hreg in Hin. by rewrite Hpc in Hin.
  - (* 74 Lock *)
    split; [|split; [|done]].
    + intros Hin. apply Hreg in Hin. by rewrite Hpc in Hin.
    + split; [done|]. intros Hnone. apply Hidle in Hnone. congruence.
  - (* 75 insert *)
    split; [done|]. split; [|done].
    split; [done|]. intros Hnone. apply Hidle in Hnone. congruence.
  - (* 76 Unlock *)
    split; [done|]. split; [|done].
    split; [done|]. intros Hnone. apply Hidle in Hnone. congruence.
  - (* 92 *)
    split; [done|]. split; [|done].
    split; [done|]. intros Hnone. apply Hidle in Hnone. congruence.
  - (* 83 Close *)
    destruct (net (server h) !! c0) as [st|] eqn:Hst.
    + rewrite (conn_Close_closed _ _ st Hst). split; [done|]. split; [done|]. eauto.
    + destruct Hidle as [_ Hidle]. rewrite Hidle in Hpc; done.
  - (* 84 Lock *)
    split; [done|]. split.
    + split; [done|]. intros Hnone. apply Hidle in Hnone. congruence.
    + intros _. apply Hclosed. by rewrite Hpc.
  - (* 85 delete *)
    rewrite lookup_delete_eq. split; [by intros [? ?]|]. split.
    + split; [done|]. intros Hnone. apply Hidle in Hnone. congruence.
    + intros _. apply Hclosed. by rewrite Hpc.
  - (* 86 Unlock *)
    split.
    + intros Hin. apply Hreg in Hin. by rewrite Hpc in Hin.
    + split.
      * split; [done|]. intros Hnone. apply Hidle in Hnone. congruence.
      * intros _. apply Hclosed. by rewrite Hpc.
  - (* the tick *)
    destruct (GetSystemStats ParseFloat order (world (server h))) as [[stats|err] w'];
      simpl in *; apply Hkeep; auto.
  - (* one turn of the range *)
    apply Hkeep; [reflexivity|].
    destruct (clients (rangeClients json_Marshal [c0] stats (server h)) !! c) eqn:Hc;
      [|by right].
    left. revert Hc. simpl.
    destruct (clients (server h) !! c0) eqn:Hc0; [|done].
    destruct (deliver_clients c0 stats (server h)) as [-> | ->]; [done|].
    intros Hc. rewrite Hc. apply lookup_delete_Some in Hc as [_ Hc]. by rewrite Hc.
Qed.


(** X9. In every state the server can reach, a registered client is an
    established connection whose handler has inserted it (line 75) and
    whose disconnect goroutine has not yet deleted it (line 85); and once
    that goroutine has finished, the connection is closed and is not in the
    registry: cleanup leaves no stale entry and no open connection. *)
Theorem registry_follows_connections (w : World) (h : Hub) :
  rtc (step ParseFloat order json_Marshal) (initial w) h ->
  forall c,
    (is_Some (clients (server h) !! c) ->
       mayBeRegistered (hpc h c) = true /\ is_Some (net (server h) !! c))
    /\ (hpc h c = RDone ->
        clients (server h) !! c = None
        /\ exists st, net (server h) !! c = Some st /\ closed st = true).
Proof.
  intros Hrun.
  assert (registryInv h) as Hinv.
  { revert h Hrun. apply rtc_ind_r; [apply registryInv_initial|].
    intros h1 h2 _ Hstep IH. by apply (registryInv_step h1). }
  intros c. destruct (Hinv c) as (Hreg & Hidle & Hclosed). split.
  - intros Hin. split; [by apply Hreg|].
    destruct (net (server h) !! c) eqn:Hnet; [done|].
    destruct Hidle as [_ Hidle]. rewrite (Hidle eq_refl) in Hreg.
    by apply Hreg in Hin.
  - intros Hdone. rewrite Hdone in Hreg, Hclosed. split.
    + destruct (clients (server h) !! c) eqn:Hc; [|done].
      discriminate Hreg. done.
    + by apply Hclosed.
Qed.

(** *** The order of the snapshots a peer receives *)

Lemma step_clock (h h' : Hub) :
  step ParseFloat order json_Marshal h h' ->
  (clock (world (server h)) <= clock (world (server h')))%Z.
Proof.
  intros Hstep.
  destruct Hstep as
    [h c0 Hpc Hnew | h c0 Hpc Hwr Hrd | h c0 Hpc | h c0 Hpc | h c0 Hpc | h c0 Hpc
    | h c0 Hpc Hwr Hrd | h c0 Hpc | h c0 Hpc | h c0 st0 Hst0
    | h Hpc | h stats todo Hpc Hwr Hrange | h stats c0 todo Hpc | h stats Hpc | h Hpc];
    simpl; try lia.
  - destruct (GetSystemStats_run ParseFloat order (world (server h)))
      as (w' & Hrun & _ & _ & Hclock & _).
    rewrite Hrun. simpl. lia.
  - destruct (rangeClients_frame [c0] stats (server h)) as (_ & _ & _ & Hclock).
    simpl in Hclock. rewrite Hclock. lia.
Qed.

Lemma stamps_snoc (st : ConnState) (stats : SystemStats.t) :
  stamps {| closed := false; peerGone := false; received := received st ++ [stats] |}
  = stamps st ++ [SystemStats.Timestamp stats].
Proof. unfold stamps. simpl. by rewrite fmap_app. Qed.

Lemma StronglySorted_snoc (l : list Z) (t : Z) :
  StronglySorted Z.lt l -> Forall (fun t' => t' < t)%Z l -> StronglySorted Z.lt (l ++ [t]).
Proof.
  intros Hl Ht. apply StronglySorted_app_2; [|done|repeat constructor].
  intros t1 t2 H1 H2. apply list_elem_of_singleton in H2 as ->.
  by apply (proj1 (Forall_forall _ _) Ht).
Qed.

Lemma stampsInv_initial (w : World) : stampsInv (initial w).
Proof. split; [|done]. intros c st. simpl. by rewrite lookup_empty. Qed.

Lemma stampsInv_step (h h' : Hub) :
  step ParseFloat order json_Marshal h h' -> stampsInv h -> stampsInv h'.
Proof.
  intros Hstep [Hall Hpc].
  pose proof (step_clock h h' Hstep) as Hclock.
  pose proof (fun c => step_conn h h' c Hstep) as Hconn.
  (* whatever a connection holds after the step, it held before, except
     for the snapshot of the turn under way *)
  assert (forall c st',
            net (server h') !! c = Some st' ->
            stamps st' = []
            \/ (exists st, net (server h) !! c = Some st /\ stamps st' = stamps st)
            \/ (exists st stats todo,
                  net (server h) !! c = Some st
                  /\ bpc h = BRange stats (c :: todo) /\ bpc h' = BRange stats todo
                  /\ stamps st' = stamps st ++ [SystemStats.Timestamp stats])) as Hfrom.
  { intros c st' Hst'. specialize (Hconn c).
    destruct (net (server h) !! c) as [st|] eqn:Hst.
    - destruct Hconn as (st1 & Hst1 & Hcases).
      assert (st1 = st') as -> by congruence.
      destruct Hcases as [->|[->|[->|(_ & stats & todo & Hb & Hb' & ->)]]];
        [right; left; eauto..|].
      right. right. exists st, stats, todo. by rewrite stamps_snoc.
    - destruct (Hconn st' Hst') as (-> & _). by left. }
  split.
  - (* in order, and nothing from the future *)
    intros c st' Hst'.
    destruct (Hfrom c st' Hst')
      as [->|[(st & Hst & ->)|(st & stats & todo & Hst & Hb & Hb' & ->)]].
    + split; constructor.
    + destruct (Hall c st Hst) as [Hsorted Hpast]. split; [done|].
      eapply Forall_impl; [exact Hpast|]. simpl. intros; lia.
    + destruct (Hall c st Hst) as [Hsorted Hpast].
      rewrite Hb in Hpc. destruct Hpc as (Hnow & _ & Hturn).
      destruct (Hturn c st Hst) as [_ Hbefore].
      specialize (Hbefore ltac:(apply list_elem_of_here)).
      split; [by apply StronglySorted_snoc|].
      apply Forall_app. split.
      * eapply Forall_impl; [exact Hpast|]. simpl. intros; lia.
      * repeat constructor. lia.
  - (* the tick under way *)
    destruct Hstep as
      [h c0 Hpc0 Hnew | h c0 Hpc0 Hwr Hrd | h c0 Hpc0 | h c0 Hpc0 | h c0 Hpc0 | h c0 Hpc0
      | h c0 Hpc0 Hwr Hrd | h c0 Hpc0 | h c0 Hpc0 | h c0 st0 Hst0
      | h Hpc0 | h stats todo Hpc0 Hwr Hrange | h stats c0 todo Hpc0 | h stats Hpc0 | h Hpc0];
      cbn [bpc server world] in *;
      try (destruct (bpc h) as [|stats|stats todo|] eqn:Hb; [done| | |done];
           [destruct Hpc as [Hnow Hturn]; split; [done|];
            intros c st' Hst';
            destruct (Hfrom c st' Hst')
              as [->|[(st & Hst & ->)|(st & stats' & todo' & Hst & Hb1 & _)]];
            [apply Forall_nil_2|by apply (Hturn c st)|done]
           |destruct Hpc as (Hnow & Hnd & Hturn); split; [done|split; [done|]];
            intros c st' Hst';
            destruct (Hfrom c st' Hst')
              as [->|[(st & Hst & ->)|(st & stats' & todo' & Hst & Hb1 & Hb2 & _)]];
            [split; [apply Forall_nil_2|intros _; apply Forall_nil_2]
            |by apply (Hturn c st)
            |rewrite Hb1 in Hb2; injection Hb2 as Hb2;
             apply (f_equal length) in Hb2; simpl in Hb2; lia]]).
    + (* the tick *)
      destruct (GetSystemStats_run ParseFloat order (world (server h)))
        as (w' & Hrun & _ & _ & Hlater & _).
      rewrite Hrun in *. cbn [bpc server world setWorld net] in *.
      split; [exact Hlater|]. intros c st Hst. by destruct (Hall c st Hst).
    + (* 123 RLock *)
      rewrite Hpc0 in Hpc. destruct Hpc as [Hnow Hturn]. destruct Hrange as [Hnd _].
      split; [done|]. split; [done|]. intros c st Hst.
      split; [|intros _; by apply (Hturn c)].
      eapply Forall_impl; [by apply (Hturn c st)|]. simpl. intros; lia.
    + (* one turn of the range *)
      rewrite Hpc0 in Hpc. destruct Hpc as (Hnow & Hnd & Hturn).
      apply list.NoDup_cons in Hnd as [Hc0 Hnd].
      destruct (rangeClients_frame [c0] stats (server h)) as (_ & _ & _ & Hsame).
      split; [rewrite Hsame; exact Hnow|]. split; [done|].
      intros c st' Hst'. rewrite Hpc0 in Hfrom.
      destruct (Hfrom c st' Hst')
        as [->|[(st & Hst & ->)|(st & stats' & todo' & Hst & [= <- <- <-] & _ & ->)]].
      * split; [apply Forall_nil_2|intros _; apply Forall_nil_2].
      * destruct (Hturn c st Hst) as [Hle Hlt]. split; [done|].
        intros Hin. apply Hlt. by apply list_elem_of_further.
      * destruct (Hturn c0 st Hst) as [_ Hlt].
        specialize (Hlt ltac:(apply list_elem_of_here)).
        split; [|done].
        apply Forall_app. split; [|repeat constructor; lia].
        eapply Forall_impl; [exact Hlt|]. simpl. intros; lia.
    + done.
    + done.
Qed.

(** X10. Every peer receives the snapshots in the order in which they were
    taken, each at most once: the stamps of what a connection has received
    are strictly increasing, in every state the server can reach. *)
Theorem snapshots_arrive_in_order (w : World) (h : Hub) :
  rtc (step ParseFloat order json_Marshal) (initial w) h ->
  forall c st,
    net (server h) !! c = Some st ->
    StronglySorted Z.lt (SystemStats.Timestamp <$> received st)
    /\ NoDup (received st).
Proof.
  intros Hrun.
  assert (stampsInv h) as [Hall _].
  { revert h Hrun. apply rtc_ind_r; [apply stampsInv_initial|].
    intros h1 h2 _ Hstep IH. by apply (stampsInv_step h1). }
  intros c st Hst. destruct (Hall c st Hst) as [Hsorted _].
  split; [exact Hsorted|].
  unfold stamps in Hsorted. apply (NoDup_fmap_1 SystemStats.Timestamp).
  clear -Hsorted. induction Hsorted as [|t l _ IH Hlt]; [constructor|].
  apply list.NoDup_cons. split; [|done].
  intros Hin. apply (proj1 (Forall_forall _ _) Hlt) in Hin. lia.
Qed.

(** X11. One turn of the broadcast loop never adds a client to the
    registry and never writes to, or closes, a connection that is not
    registered; it reads the host without changing it, and time has passed
    when it is over. *)
Theorem broadcastTick_frame (todo : list Conn) (ws : WebServer) :
  let ws' := broadcastTick ParseFloat order json_Marshal todo ws in
  clients ws' ⊆ clients ws
  /\ (forall c,
        clients ws !! c = None ->
        clients ws' !! c = None /\ net ws' !! c = net ws !! c)
  /\ os (world ws') = os (world ws)
  /\ (clock (world ws) < clock (world ws'))%Z.
Proof.
  intros ws'. unfold ws', broadcastTick.
  destruct (GetSystemStats_run ParseFloat order (world ws))
    as (w' & Hrun & Hos & _ & Hclock & _).
  rewrite Hrun.
  match goal with |- context [rangeClients _ _ ?stats _] =>
    destruct (rangeClients_frame todo stats (setWorld w' ws))
      as (Hsub & Hnet & Hos' & Hclock') end.
  simpl in *. split; [exact Hsub|]. split; [|split; [congruence|lia]].
  intros c Hc. split; [|by apply Hnet].
  rewrite map_subseteq_spec in Hsub.
  match goal with |- ?m !! c = None => destruct (m !! c) as [b|] eqn:Hc' end; [|done].
  apply Hsub in Hc'. congruence.
Qed.

(** X12. When JSON cannot encode the snapshot of a tick (a float that is
    not a number, say), every send of the tick fails: the turn closes the
    connection of every registered client and leaves the registry empty,
    and no peer receives the snapshot. *)
Theorem unencodable_snapshot_drops_all (todo : list Conn) (ws : WebServer) :
  rangeOrder (clients ws) todo ->
  (forall stats,
      fst (GetSystemStats ParseFloat order (world ws)) = Ok stats ->
      exists err, json_Marshal stats = Err err) ->
  let ws' := broadcastTick ParseFloat order json_Marshal todo ws in
  clients ws' = ∅
  /\ forall c st,
      is_Some (clients ws !! c) ->
      net ws !! c = Some st ->
      net ws' !! c
      = Some {| closed := true; peerGone := peerGone st; received := received st |}.
Proof.
  intros [Hnd Hcover] Hjson ws'. unfold ws', broadcastTick.
  destruct (GetSystemStats_run ParseFloat order (world ws)) as (w' & Hrun & _).
  set (stats := SystemStats.mk _ _ _ _ _ _) in Hrun.
  destruct (Hjson stats) as [err Herr]; [by rewrite Hrun|].
  rewrite Hrun.
  assert (forall c, ~ delivers json_Marshal stats (setWorld w' ws) c) as Hfail.
  { intros c Hsend. apply delivers_iff in Hsend as (st & j & _ & _ & _ & Hj). congruence. }
  assert (forall c', c' ∈ todo -> is_Some (clients (setWorld w' ws) !! c')) as Hreg
    by (intros c' Hin; by apply Hcover).
  pose proof (rangeClients_spec json_Marshal todo stats (setWorld w' ws) Hnd Hreg) as Hspec.
  cbv zeta in Hspec. split.
  - apply map_eq. intros c. rewrite lookup_empty.
    destruct (Hspec c) as (Hout & _ & Hdrop).
    destruct (decide (c ∈ todo)) as [Hin|Hnot].
    + by destruct (Hdrop Hin (Hfail c)).
    + destruct (Hout Hnot) as [-> _]. simpl.
      destruct (clients ws !! c) eqn:Hc; [|done].
      destruct Hnot. apply Hcover. by rewrite Hc.
  - intros c st Hc Hst. destruct (Hspec c) as (_ & _ & Hdrop).
    destruct (Hdrop (proj2 (Hcover c) Hc) (Hfail c)) as [_ Hclosed]. by apply Hclosed.
Qed.

(** *** The mutex is always given back *)





(** A whole turn of the broadcast loop, step by step, while one client is
    registered whose connection is alive: the client receives the snapshot
    of the tick, and the broadcaster is back at its wait. *)
Lemma round_delivers (h : Hub) (c : Conn) (st : ConnState) :
  (forall stats, exists j, json_Marshal stats = Ok j) ->
  bpc h = BWait -> writer (mu h) = false ->
  clients (server h) = {[c := true]} ->
  net (server h) !! c = Some st -> dead st = false ->
  exists h' stats,
    rtc (step ParseFloat order json_Marshal) h h'
    /\ bpc h' = BWait /\ writer (mu h') = false /\ readers (mu h') = readers (mu h)
    /\ hpc h' = hpc h
    /\ clients (server h') = clients (server h)
    /\ net (server h') !! c
       = Some {| closed := false; peerGone := false; received := received st ++ [stats] |}.
Proof.
  intros Hjson Hb Hw Hclients Hst Halive.
  destruct (GetSystemStats_run ParseFloat order (world (server h))) as (w' & Hrun & _).
  set (stats := SystemStats.mk _ _ _ _ _ _) in Hrun.
  pose proof (step_b_tick ParseFloat order json_Marshal h Hb) as Htick.
  rewrite Hrun in Htick.
  set (h1 := {| server := setWorld w' (server h); mu := mu h; bpc := BRLock stats;
                hpc := hpc h |}) in Htick.
  assert (rangeOrder (clients (server h1)) [c]) as Horder.
  { split; [apply NoDup_singleton|]. intros c'. simpl. rewrite Hclients.
    rewrite list_elem_of_singleton, lookup_singleton_is_Some. done. }
  pose proof (step_b_rlock ParseFloat order json_Marshal h1 stats [c] eq_refl Hw Horder)
    as Hrlock.
  set (h2 := {| server := server h1; mu := _; bpc := BRange stats [c]; hpc := hpc h1 |})
    in Hrlock.
  pose proof (step_b_range ParseFloat order json_Marshal h2 stats c [] eq_refl) as Hrange.
  set (h3 := {| server := rangeClients json_Marshal [c] stats (server h2); mu := mu h2;
                bpc := BRange stats []; hpc := hpc h2 |}) in Hrange.
  pose proof (step_b_range_end ParseFloat order json_Marshal h3 stats eq_refl) as Hend.
  set (h4 := {| server := server h3; mu := mu h3; bpc := BRUnlock; hpc := hpc h3 |})
    in Hend.
  pose proof (step_b_runlock ParseFloat order json_Marshal h4 eq_refl) as Hrunlock.
  eexists _, stats. split.
  { eapply rtc_l; [exact Htick|]. eapply rtc_l; [exact Hrlock|].
    eapply rtc_l; [exact Hrange|]. eapply rtc_l; [exact Hend|].
    apply rtc_once. exact Hrunlock. }
  cbn [bpc mu hpc server writer readers h4 h3 h2 h1 pred].
  split; [done|]. split; [done|]. split; [done|]. split; [done|].
  assert (delivers json_Marshal stats (setWorld w' (server h)) c) as Hsend.
  { apply delivers_iff. destruct (Hjson stats) as [j Hj]. unfold dead in Halive.
    apply orb_false_elim in Halive as [Hclosed Hgone]. by exists st, j. }
  destruct (deliver_ok json_Marshal c stats (setWorld w' (server h)) Hsend)
    as (st0 & Hst0 & Hsame & Hnet).
  simpl in Hst0. assert (st0 = st) as -> by congruence.
  simpl. rewrite Hclients, lookup_singleton_eq. rewrite Hsame, Hnet. simpl.
  by rewrite Hclients.
Qed.

End WebInvariants.

(** ** The terminal adapter *)

(** The loop of [formatBytes] keeps [div] a power of 1024 below [bytes] and
    [n] the quotient of [bytes] by [div]; it stops after as many turns as
    [n] has digits to the base 1024. *)
Lemma formatBytesLoop_run (bytes : Z) (fuel : nat) (n div : Z) (exp : nat) :
  (0 < div)%Z -> n = (bytes / div)%Z -> (1 <= n < 1024 ^ Z.of_nat (S fuel))%Z ->
  (bytes < 2 ^ 64)%Z ->
  exists k,
    formatBytesLoop fuel n div exp = Some ((div * 1024 ^ Z.of_nat k)%Z, exp + k)
    /\ (div * 1024 ^ Z.of_nat k <= bytes < div * 1024 ^ Z.of_nat (S k))%Z.
Proof.
  revert n div exp. induction fuel as [|fuel IH]; intros n div exp Hdiv Hn Hfuel Hmax.
  - exists 0. simpl. destruct (Z.leb_spec 1024 n) as [Hbig|Hsmall]; [simpl in Hfuel; lia|].
    rewrite Nat.add_0_r, Z.mul_1_r. split; [done|].
    change (1024 ^ Z.of_nat 1)%Z with 1024%Z. subst n.
    pose proof (Z.div_mod bytes div ltac:(lia)) as Hdm.
    pose proof (Z.mod_pos_bound bytes div Hdiv). nia.
  - simpl formatBytesLoop. destruct (Z.leb_spec 1024 n) as [Hbig|Hsmall].
    + assert (div * 1024 <= bytes)%Z as Hle.
      { subst n. pose proof (Z.div_mod bytes div ltac:(lia)) as Hdm.
        pose proof (Z.mod_pos_bound bytes div Hdiv). nia. }
      assert (uint64 (div * 1024) = (div * 1024)%Z) as ->.
      { unfold uint64. apply Z.mod_small. lia. }
      destruct (IH (n / 1024)%Z (div * 1024)%Z (S exp)) as (k & Hrun & Hbounds).
      * lia.
      * subst n. apply Z.div_div; lia.
      * split.
        -- apply Z.div_le_lower_bound; lia.
        -- apply Z.div_lt_upper_bound; [lia|].
           replace (Z.of_nat (S (S fuel))) with (1 + Z.of_nat (S fuel))%Z in Hfuel by lia.
           rewrite Z.pow_add_r in Hfuel by lia. lia.
      * done.
      * exists (S k). rewrite Hrun.
        replace (Z.of_nat (S k)) with (1 + Z.of_nat k)%Z by lia.
        replace (Z.of_nat (S (S k))) with (1 + Z.of_nat (S k))%Z by lia.
        rewrite !(Z.pow_add_r 1024 1) by lia.
        change (1024 ^ 1)%Z with 1024%Z.
        rewrite !Z.mul_assoc. split; [|exact Hbounds].
        do 2 f_equal. lia.
    + exists 0. rewrite Nat.add_0_r, Z.mul_1_r. split; [done|].
      change (1024 ^ Z.of_nat 1)%Z with 1024%Z. subst n.
      pose proof (Z.div_mod bytes div ltac:(lia)) as Hdm.
      pose proof (Z.mod_pos_bound bytes div Hdiv). nia.
Qed.

(** X14. For every [uint64] number of bytes [formatBytes] returns: the
    loop ends, [div] never overflows and the index into "KMGTPE" is in
    range. Below 1024 the text is the plain number of bytes. From 1024 on
    the unit is the [k]-th letter of "KMGTPE" and the divisor is
    1024^(k+1), where [k] is such that the number shown, bytes / divisor,
    is at least 1 and below 1024. *)
Theorem formatBytes_unit (bytes : Z) :
  (0 <= bytes < 2 ^ 64)%Z ->
  if (bytes <? 1024)%Z then formatBytes bytes = Returns (Sprintf "%d B" [ArgInt bytes])
  else
    exists (k : nat) (unit : ascii),
      k <= 5
      /\ String.list_ascii_of_string "KMGTPE" !! k = Some unit
      /\ formatBytes bytes
         = Returns (Sprintf "%.1f %cB"
                      [ArgRatio bytes (1024 ^ Z.of_nat (S k)); ArgChar unit])
      /\ (1024 ^ Z.of_nat (S k) <= bytes < 1024 * 1024 ^ Z.of_nat (S k))%Z.
Proof.
  intros Hrange. unfold formatBytes.
  destruct (Z.ltb_spec bytes 1024) as [Hsmall|Hbig]; [reflexivity|].
  destruct (formatBytesLoop_run bytes 64 (bytes / 1024) 1024 0) as (k & Hrun & Hlo & Hhi);
    [lia|done| |lia|].
  { split; [apply Z.div_le_lower_bound; lia|].
    apply Z.div_lt_upper_bound; [lia|].
    assert (2 ^ 64 <= 1024 * 1024 ^ Z.of_nat 65)%Z by (by vm_compute). lia. }
  rewrite Hrun. clear Hrun. cbn [Nat.add].
  assert (1024 * 1024 ^ Z.of_nat k = 1024 ^ Z.of_nat (S k))%Z as Hpow.
  { replace (Z.of_nat (S k)) with (1 + Z.of_nat k)%Z by lia.
    by rewrite Z.pow_add_r by lia. }
  rewrite Hpow in *.
  assert (k <= 5) as Hk.
  { destruct (Nat.le_gt_cases k 5) as [?|Hgt]; [done|]. exfalso.
    assert (1024 ^ 7 <= 1024 ^ Z.of_nat (S k))%Z by (apply Z.pow_le_mono_r; lia).
    assert (2 ^ 64 < 1024 ^ 7)%Z by (by vm_compute). lia. }
  assert (exists unit, String.list_ascii_of_string "KMGTPE" !! k = Some unit) as [unit Hunit].
  { do 6 (destruct k as [|k]; [simpl; eauto|]). lia. }
  exists k, unit. rewrite Hunit. split; [done|]. split; [done|]. split; [done|].
  rewrite <- Hpow at 2. lia.
Qed.

Lemma toInt_small (n : Z) : (- 2 ^ 63 <= n < 2 ^ 63)%Z -> toInt n = n.
Proof. intros Hn. unfold toInt. rewrite Z.mod_small; lia. Qed.

(** The loop of [drawGPIO] started at [row] draws the first [8 - row] pins
    of the range, one row each. *)
Lemma drawGPIOLoop_rows (x y : Z) (pins : list (string * GPIOState.t)) (row : nat) :
  (- 2 ^ 63 <= y < 2 ^ 63 - 8)%Z -> 1 <= row <= 8 ->
  drawGPIOLoop x y (Z.of_nat row) pins
  = imap (fun i pin => drawPin x y (Z.of_nat (row + i)) pin.1 pin.2) (take (8 - row) pins).
Proof.
  intros Hy. revert row. induction pins as [|[pinName pinData] rest IH]; intros row Hrow.
  - by rewrite take_nil.
  - simpl drawGPIOLoop. destruct (Z.leb_spec 8 (Z.of_nat row)) as [Hfull|Hfree].
    + replace (8 - row) with 0 by lia. reflexivity.
    + replace (8 - row) with (S (8 - S row)) by lia.
      rewrite firstn_cons, imap_cons. simpl fst. simpl snd.
      rewrite Nat.add_0_r. f_equal.
      rewrite toInt_small by lia.
      replace (Z.of_nat row + 1)%Z with (Z.of_nat (S row)) by lia.
      rewrite IH by lia. apply imap_ext. intros i pin _. simpl.
      by replace (row + S i) with (S (row + i)) by lia.
Qed.

(** X15. [drawGPIO] draws the heading and then, for a snapshot without
    pins, the one line "No GPIO data"; otherwise one line per pin for the
    first seven pins of the range over the map, on the seven rows below the
    heading, green for the value 1 and red for any other. The loop leaves
    at row 8, so an eighth pin is never drawn. *)
Theorem drawGPIO_seven_pins (rangePins : list (string * GPIOState.t))
    (gpio : GPIOStats.t) (x y width : Z) :
  rangePins ≡ₚ map_to_list (GPIOStats.Pins gpio) ->
  (- 2 ^ 63 <= y < 2 ^ 63 - 8)%Z ->
  let calls := drawGPIO rangePins gpio x y width in
  let heading := drawText x y (Literal "GPIO Status") ColorYellow true in
  (GPIOStats.Pins gpio = ∅ ->
     calls = [heading; drawText x (y + 1) (Literal "No GPIO data") ColorGray false])
  /\ (GPIOStats.Pins gpio <> ∅ ->
      calls
      = heading
        :: imap (fun i pin =>
                   drawText x (y + 1 + Z.of_nat i)
                     (Sprintf "%s: %d (%s)"
                        [ArgString pin.1; ArgInt (GPIOState.Value pin.2);
                         ArgString (GPIOState.Mode pin.2)])
                     (if (GPIOState.Value pin.2 =? 1)%Z then ColorGreen else ColorRed)
                     false)
             (take 7 rangePins))
  /\ length calls <= 8
  /\ (7 <= size (GPIOStats.Pins gpio) -> length calls = 8).
Proof.
  intros Hperm Hy calls heading. unfold calls, drawGPIO. fold heading.
  assert (length rangePins = size (GPIOStats.Pins gpio)) as Hlen.
  { by rewrite Hperm, length_map_to_list. }
  assert (drawGPIOLoop x y 1 rangePins
          = imap (fun i pin =>
                    drawText x (y + 1 + Z.of_nat i)
                      (Sprintf "%s: %d (%s)"
                         [ArgString pin.1; ArgInt (GPIOState.Value pin.2);
                          ArgString (GPIOState.Mode pin.2)])
                      (if (GPIOState.Value pin.2 =? 1)%Z then ColorGreen else ColorRed)
                      false)
              (take 7 rangePins)) as Hloop.
  { pose proof (drawGPIOLoop_rows x y rangePins 1 Hy ltac:(lia)) as Hrows.
    change (Z.of_nat 1) with 1%Z in Hrows. change (8 - 1) with 7 in Hrows.
    rewrite Hrows. apply imap_ext. intros i pin Hi. unfold drawPin. cbv zeta.
    apply lookup_lt_Some in Hi. rewrite length_take in Hi.
    rewrite toInt_small by lia. f_equal. lia. }
  split; [|split; [|split]].
  - intros Hempty. rewrite Hempty, map_size_empty. simpl.
    by rewrite toInt_small by lia.
  - intros Hpins. apply map_size_non_empty_iff in Hpins.
    destruct (Nat.eqb_spec (size (GPIOStats.Pins gpio)) 0); [done|].
    by rewrite Hloop.
  - destruct (size (GPIOStats.Pins gpio) =? 0); simpl; [lia|].
    rewrite Hloop, length_imap, length_take. lia.
  - intros Hmany. destruct (Nat.eqb_spec (size (GPIOStats.Pins gpio)) 0); [lia|].
    simpl. rewrite Hloop, length_imap, length_take. lia.
Qed.


Section TerminalFacts.

Variable ParseFloat : string -> Result float.
Variable order : list (string * string).


End TerminalFacts.

(** ** The scenarios of the specification, run on the fixtures *)

(** The mock diskstats line: 100 reads, 50 writes. *)
Lemma readDiskIO_mock_line :
  fst (readDiskIO (worldAt mockOS 0)) = Ok (DiskIOStats.mk 100 50).
Proof.
  destruct (readDiskIO_first_matching_line (worldAt mockOS 0) mockDiskstats eq_refl)
    as [Hfirst _].
  destruct (Hfirst mockDiskLine) as (name & reads & writes & _ & _ & _ & H3 & H7 & Hrun).
  - exists ["   7       0 loop0 10 0 20 3 0 0 0 0 0 4 4"],
           ["   8       1 sda1 90 5 1800 25 45 2 900 35 0 60 60"].
    split; [reflexivity|]. split; [reflexivity|].
    intros l Hl. apply list_elem_of_singleton in Hl as ->. reflexivity.
  - vm_compute in H3, H7. injection H3 as <-. injection H7 as <-. exact Hrun.
Defined.

(** The mock load average: 0.10, 0.25 and 0.30. *)
Lemma readLoadAverage_mock :
  fst (readLoadAverage decimalFloat (worldAt mockOS 0))
  = Ok [(1 / 10)%float; (1 / 4)%float; (3 / 10)%float].
Proof.
  apply (proj1 (readLoadAverage_three_fields decimalFloat (worldAt mockOS 0)
                  mockLoadavg eq_refl)
           "0.10" "0.25" "0.30" ["1/123"; "4567"]); reflexivity.
Defined.

(** The mock thermal file: 45000 millidegrees are 45 degrees, in whatever
    order the sensors are visited. *)
Lemma readTemperature_mock :
  fst (readTemperature decimalFloat "/sys/class/thermal/thermal_zone0/temp"
         (worldAt mockOS 0)) = Ok 45%float
  /\ fst (getTemperatureStats decimalFloat (reverse tempPaths) (worldAt mockOS 0))
     = Ok (TempStats.mk 45 0 0 0).
Proof.
  destruct (readTemperature_millidegrees decimalFloat (reverse tempPaths)
              (worldAt mockOS 0) (reverse_Permutation tempPaths))
    as (Hread & _ & Hstats).
  split.
  - apply (Hread "/sys/class/thermal/thermal_zone0/temp" (lf "45000") 45000%float);
      reflexivity.
  - rewrite Hstats. reflexivity.
Defined.

(** The mock GPIO tree: the two exported pins are reported, the chip entry
    (no direction file) and the control files are not. *)
Lemma getGPIOStats_mock :
  exists gpio,
    fst (getGPIOStats (worldAt mockOS 0)) = Ok gpio
    /\ GPIOStats.Pins gpio !! "gpio17" = Some (GPIOState.mk "gpio17" 1 "in")
    /\ GPIOStats.Pins gpio !! "gpio27" = Some (GPIOState.mk "gpio27" 0 "out")
    /\ GPIOStats.Pins gpio !! "gpiochip0" = None
    /\ GPIOStats.Pins gpio !! "export" = None.
Proof.
  destruct (getGPIOStats_pins decimalFloat tempPaths (worldAt mockOS 0))
    as (gpio & Hrun & _ & Hpins).
  destruct (Hpins ["export"; "gpio17"; "gpio27"; "gpiochip0"; "unexport"]
              eq_refl eq_refl) as (Hread & Hskip & Hother & _).
  exists gpio. split; [exact Hrun|]. repeat split.
  - apply Hread; [|reflexivity..]. rewrite !elem_of_cons. auto.
  - apply Hread; [|reflexivity..]. rewrite !elem_of_cons. auto.
  - apply (Hskip "gpiochip0" 0%Z EmptyString
             (PathError "open" "/sys/class/gpio/gpiochip0/direction" ENOENT)).
    reflexivity.
  - apply Hother. intros [_ Hprefix]. discriminate Hprefix.
Defined.

(** Without the GPIO root the mapping is empty, and a failing memory query
    zeroes the memory family only. *)
Lemma GetSystemStats_bare :
  exists stats w',
    GetSystemStats decimalFloat tempPaths (worldAt bareOS 100) = (Ok stats, w')
    /\ SystemStats.Timestamp stats = 100%Z
    /\ SystemStats.GPIO stats = GPIOStats.mk empty
    /\ SystemStats.Memory stats = MemStats.zero
    /\ DiskStats.IORead (SystemStats.Disk stats) = 100%Z
    /\ TempStats.CPU (SystemStats.Temperature stats) = 45%float
    /\ CPUStats.Temperature (SystemStats.CPU stats) = 0%float.
Proof.
  destruct (GetSystemStats_never_fails decimalFloat tempPaths (worldAt bareOS 100))
    as (_ & _ & _ & _ & _ & stats & w' & Hrun & Hcpu & Hmem & Hdisk & Htemp & Hgpio & _).
  exists stats, w'. split; [exact Hrun|].
  assert (fst (GetSystemStats decimalFloat tempPaths (worldAt bareOS 100)) = Ok stats)
    as Hfst by (by rewrite Hrun).
  vm_compute in Hfst. injection Hfst as <-. repeat split.
Defined.

(** A handler about to insert excludes the broadcaster. Three subscribers,
    one of them gone before the tick: the two others receive the snapshot
    of the tick, the registry shrinks to these two. *)
Lemma registry_scenarios :
  let ws' := broadcastTick decimalFloat tempPaths mockJSON [3; 1; 2] threeClients in
  (mutating connecting (Handler 1) /\ ~ accessing connecting Broadcaster)
  /\ size (clients ws') = 2
  /\ clients ws' !! 2 = None
  /\ (closed <$> net ws' !! 2) = Some true
  /\ exists stats,
      SystemStats.Timestamp stats = 100%Z
      /\ (received <$> net ws' !! 1) = Some [stats]
      /\ (received <$> net ws' !! 3) = Some [stats].
Proof.
  cbv zeta.
  pose proof (registry_exclusive_failures_isolated decimalFloat tempPaths mockJSON)
    as (Hexcl & _ & Htick).
  assert (rtc (step decimalFloat tempPaths mockJSON) (initial (worldAt mockOS 0))
            connecting) as Hrun.
  { eapply rtc_l; [apply (step_upgrade _ _ _ (initial (worldAt mockOS 0)) 1); reflexivity|].
    eapply rtc_l; [apply step_h_lock with (c := 1); reflexivity|].
    apply rtc_refl. }
  assert (mutating connecting (Handler 1)) as Hmut by (by left).
  split; [split; [exact Hmut|]|].
  { intros Hacc.
    apply (Hexcl _ _ Hrun (Handler 1) Broadcaster); [discriminate|exact Hmut|exact Hacc]. }
  assert (rangeOrder (clients threeClients) [3; 1; 2]) as Horder.
  { split; [compute_done|]. intros c. rewrite !elem_of_cons, elem_of_nil.
    unfold threeClients. simpl.
    rewrite !lookup_insert_is_Some', lookup_empty.
    split; [intros [->|[->|[->|[]]]]; auto|].
    intros [?|[?|[?|[? ?]]]]; [auto..|done]. }
  destruct (Htick [3; 1; 2] threeClients Horder) as (stats & Hstats & Hturn).
  cbv zeta in Hturn.
  destruct (Hturn 1) as [H1 _]. destruct (Hturn 3) as [H3 _].
  destruct (Hturn 2) as [_ H2].
  specialize (H1 (ltac:(by eexists)) eq_refl) as (_ & st1 & Hst1 & Hnet1).
  specialize (H3 (ltac:(by eexists)) eq_refl) as (_ & st3 & Hst3 & Hnet3).
  specialize (H2 (ltac:(by eexists)) (ltac:(by intros [=]))) as (Hgone & Hclosed).
  vm_compute in Hst1, Hst3. injection Hst1 as <-. injection Hst3 as <-.
  pose proof (Hclosed _ eq_refl) as Hnet2.
  split; [by vm_compute|]. split; [exact Hgone|].
  split; [exact (f_equal (fmap closed) Hnet2)|].
  exists stats. split; [|split].
  - vm_compute in Hstats. by injection Hstats as <-.
  - exact (f_equal (fmap received) Hnet1).
  - exact (f_equal (fmap received) Hnet3).
Defined.

(** A monitor whose build fails is answered with 500 and the error text;
    the system monitor on the mock board is answered with 200. *)
Lemma handleStats_failing_build :
  let failing : IO (Result SystemStats.t) := ret (Err (errorString "no sensors")) in
  let response := fst (handleStatsOf mockJSON failing (worldAt mockOS 100)) in
  (status response = 500%Z
   /\ contentType response = "text/plain; charset=utf-8"
   /\ body response = "no sensors" +:+ newline)
  /\ status (fst (handleStats decimalFloat tempPaths mockJSON (worldAt mockOS 100))) = 200%Z.
Proof.
  cbv zeta.
  destruct (handleStats_status decimalFloat tempPaths mockJSON
              (ret (Err (errorString "no sensors"))) (worldAt mockOS 100))
    as (_ & _ & Herr & _ & _ & stats & Hok & _).
  split; [exact (Herr _ eq_refl)|]. by rewrite Hok.
Defined.

(** ** Further scenarios *)

(** Of five lines, the first is no "cpu MHz" line, the second holds no
    number, the third has two colons: the frequency is that of the fourth,
    and the fifth is not looked at. *)
Lemma readCPUFrequency_odd :
  fst (readCPUFrequency decimalFloat (worldAt oddOS 0)) = Ok 600%float.
Proof.
  destruct (readCPUFrequency_first_number decimalFloat (worldAt oddOS 0))
    as (_ & Hfirst & Hcolons).
  destruct (Hfirst oddCpuinfo ltac:(by vm_compute)) as [Hline _].
  refine (Hline
            ["model name	: ARMv7 Processor rev 4 (v7l)"; "cpu MHz		: n/a";
             "cpu MHz		: 12:30"]
            "cpu MHz		: 600.000" ["cpu MHz		: 1400.000"]
            "cpu MHz		" " 600.000" 600%float _ _ _ _ _);
    [by vm_compute| |by vm_compute..].
  apply Forall_cons_2; [|apply Forall_cons_2; [|apply Forall_cons_2; [|apply Forall_nil_2]]].
  - left. by vm_compute.
  - right. right. eexists. vm_compute. reflexivity.
  - apply Hcolons. by vm_compute.
Defined.

(** A read counter of twenty nines is reported as 2^64-1, a write counter
    "-50" as 0. *)
Lemma readDiskIO_odd :
  fst (readDiskIO (worldAt oddOS 0)) = Ok (DiskIOStats.mk maxUint64 0).
Proof.
  destruct (readDiskIO_counters (worldAt oddOS 0) oddDiskstats ltac:(by vm_compute))
    as (io & Hrun & _ & _ & Hline).
  assert (firstDiskLine oddDiskstats oddDiskLine) as Hfirst.
  { exists ["   7       0 loop0 10 0 20 3 0 0 0 0 0 4 4"], [].
    split; [by vm_compute|]. split; [by vm_compute|].
    intros l Hl. apply list_elem_of_singleton in Hl as ->. by vm_compute. }
  destruct (Hline oddDiskLine Hfirst 3 "99999999999999999999" (DiskIOStats.Read io))
    as (_ & Hread & _); [by left|by vm_compute|].
  destruct (Hline oddDiskLine Hfirst 7 "-50" (DiskIOStats.Write io))
    as (_ & _ & Hwrite); [by right|by vm_compute|].
  rewrite Hrun. destruct io as [r wr]. simpl in Hread, Hwrite. f_equal. f_equal.
  - rewrite Hread; [by vm_compute|]. apply (bool_decide_unpack _). by vm_compute.
  - by apply (Hwrite "-"%char (bytes "50")).
Defined.

(** The client whose peer is gone before the range reaches it has received
    nothing, and receives nothing in the turn that removes it. *)
Lemma gone_client_receives_nothing :
  let h' := {| server := rangeClients mockJSON [2] mockStats threeClients;
               mu := mu servingGone; bpc := BRange mockStats [3];
               hpc := hpc servingGone |} in
  exists st',
    net (server h') !! 2 = Some st' /\ dead st' = true /\ received st' = [].
Proof.
  cbv zeta.
  apply (dead_connection_receives_nothing decimalFloat tempPaths mockJSON servingGone _ 2
           {| closed := false; peerGone := true; received := [] |}).
  - apply rtc_once. by apply (step_b_range _ _ _ servingGone mockStats 2 [3]).
  - reflexivity.
  - reflexivity.
Defined.

(** Bring the state a run has reached into shape. *)
Ltac tidy :=
  match goal with
  | |- rtc ?R ?h ?z =>
      let h' := eval cbn [server mu bpc hpc clients net world writer readers] in h in
      change (rtc R h' z)
  end.

(** The next step of the goroutines of connection 1. *)
Ltac next_step lem :=
  eapply rtc_l; [apply lem with (c := 1); reflexivity|]; tidy.

(** A client connects, registers, disconnects and is cleaned up. *)
Lemma lifecycle_run :
  exists h,
    rtc (step decimalFloat tempPaths mockJSON) (initial (worldAt mockOS 0)) h
    /\ hpc h 1 = RDone.
Proof.
  eexists. split.
  - unfold initial.
    next_step step_upgrade. next_step step_h_lock. next_step step_h_insert.
    next_step step_h_unlock. next_step step_r_read. next_step step_r_close.
    next_step step_r_lock. next_step step_r_delete. next_step step_r_unlock.
    apply rtc_refl.
  - reflexivity.
Qed.

(** After the cleanup the connection is closed and not registered. *)
Lemma registry_after_disconnect :
  exists h,
    rtc (step decimalFloat tempPaths mockJSON) (initial (worldAt mockOS 0)) h
    /\ hpc h 1 = RDone
    /\ clients (server h) !! 1 = None
    /\ (closed <$> net (server h) !! 1) = Some true.
Proof.
  destruct lifecycle_run as (h & Hrun & Hdone).
  destruct (registry_follows_connections decimalFloat tempPaths mockJSON _ h Hrun 1)
    as [_ Hclean].
  destruct (Hclean Hdone) as (Hgone & st & Hst & Hclosed).
  exists h. split; [exact Hrun|]. split; [exact Hdone|]. split; [exact Hgone|].
  exact (eq_trans (f_equal (fmap closed) Hst) (f_equal Some Hclosed)).
Defined.

(** A client registers and two ticks pass. *)
Lemma two_ticks_run :
  exists h st,
    rtc (step decimalFloat tempPaths mockJSON) (initial (worldAt mockOS 0)) h
    /\ net (server h) !! 1 = Some st
    /\ length (received st) = 2.
Proof.
  assert (exists h0,
            rtc (step decimalFloat tempPaths mockJSON) (initial (worldAt mockOS 0)) h0
            /\ bpc h0 = BWait /\ writer (mu h0) = false
            /\ clients (server h0) = {[1 := true]}
            /\ net (server h0) !! 1 = Some newConn) as (h0 & Hrun0 & Hb0 & Hw0 & Hc0 & Hn0).
  { eexists. split.
    - unfold initial.
      next_step step_upgrade. next_step step_h_lock. next_step step_h_insert.
      next_step step_h_unlock. apply rtc_refl.
    - by repeat split. }
  assert (forall stats, exists j, mockJSON stats = Ok j) as Hjson by (by eexists).
  destruct (round_delivers decimalFloat tempPaths mockJSON h0 1 newConn
              Hjson Hb0 Hw0 Hc0 Hn0 eq_refl)
    as (h1 & stats1 & Hrun1 & Hb1 & Hw1 & _ & _ & Hc1 & Hn1).
  rewrite Hc0 in Hc1.
  destruct (round_delivers decimalFloat tempPaths mockJSON h1 1 _
              Hjson Hb1 Hw1 Hc1 Hn1 eq_refl)
    as (h2 & stats2 & Hrun2 & _ & _ & _ & _ & _ & Hn2).
  eexists h2, _. split; [|split; [exact Hn2|reflexivity]].
  etrans; [exact Hrun0|]. etrans; [exact Hrun1|exact Hrun2].
Qed.

(** The two snapshots the client has received are in the order of the
    ticks. *)
Lemma two_snapshots_in_order :
  exists h st,
    rtc (step decimalFloat tempPaths mockJSON) (initial (worldAt mockOS 0)) h
    /\ net (server h) !! 1 = Some st
    /\ length (received st) = 2
    /\ StronglySorted Z.lt (SystemStats.Timestamp <$> received st)
    /\ NoDup (received st).
Proof.
  destruct two_ticks_run as (h & st & Hrun & Hst & Hlen).
  destruct (snapshots_arrive_in_order decimalFloat tempPaths mockJSON _ h Hrun 1 st Hst)
    as [Hsorted Hnodup].
  by exists h, st.
Defined.



(** 1536 bytes are shown in K, the largest [uint64] in E. *)
Lemma formatBytes_scenarios :
  formatBytes 1536 = Returns (Sprintf "%.1f %cB" [ArgRatio 1536 1024; ArgChar "K"])
  /\ formatBytes maxUint64
     = Returns (Sprintf "%.1f %cB" [ArgRatio maxUint64 (1024 ^ 6); ArgChar "E"]).
Proof.
  split.
  - destruct (formatBytes_unit 1536 ltac:(by vm_compute))
      as (k & unit & Hk & Hunit & Hrun & Hlo & Hhi).
    assert (k = 0) as ->.
    { destruct k as [|k]; [done|]. exfalso.
      assert (1024 ^ 2 <= 1024 ^ Z.of_nat (S (S k)))%Z by (apply Z.pow_le_mono_r; lia).
      change (1024 ^ 2)%Z with 1048576%Z in *. lia. }
    injection Hunit as <-. exact Hrun.
  - destruct (formatBytes_unit maxUint64 ltac:(by vm_compute))
      as (k & unit & Hk & Hunit & Hrun & Hlo & Hhi).
    assert (k = 5) as ->.
    { destruct (decide (k = 5)) as [?|Hne]; [done|]. exfalso.
      assert (1024 ^ Z.of_nat (S k) <= 1024 ^ 5)%Z by (apply Z.pow_le_mono_r; lia).
      change (1024 ^ 5)%Z with 1125899906842624%Z in *.
      change maxUint64 with 18446744073709551615%Z in *. lia. }
    injection Hunit as <-. exact Hrun.
Defined.

(** With eight pins the panel has eight lines: the heading and seven pins. *)
Lemma drawGPIO_eight_pins :
  length (drawGPIO (map_to_list (GPIOStats.Pins eightPins)) eightPins 40 12 40) = 8.
Proof.
  pose proof (drawGPIO_seven_pins (map_to_list (GPIOStats.Pins eightPins)) eightPins
                40 12 40 ltac:(reflexivity) ltac:(by vm_compute)) as Hdraw.
  cbv zeta in Hdraw. destruct Hdraw as (_ & _ & _ & Hfull).
  refine (Hfull _). vm_compute. lia.
Defined.


(** A JSON encoder that refuses every snapshot. *)
Lemma unencodable_drops_three :
  let refuse : SystemStats.t -> Result string :=
    fun _ => Err (errorString "json: unsupported value: NaN") in
  let ws' := broadcastTick decimalFloat tempPaths refuse [3; 1; 2] threeClients in
  clients ws' = ∅
  /\ (closed <$> net ws' !! 1) = Some true
  /\ (received <$> net ws' !! 1) = Some [].
Proof.
  cbv zeta.
  assert (rangeOrder (clients threeClients) [3; 1; 2]) as Horder.
  { split; [compute_done|]. intros c. rewrite !elem_of_cons, elem_of_nil.
    unfold threeClients. simpl.
    rewrite !lookup_insert_is_Some', lookup_empty.
    split; [intros [->|[->|[->|[]]]]; auto|].
    intros [?|[?|[?|[? ?]]]]; [auto..|done]. }
  destruct (unencodable_snapshot_drops_all decimalFloat tempPaths
              (fun _ => Err (errorString "json: unsupported value: NaN"))
              [3; 1; 2] threeClients Horder) as [Hempty Hclosed].
  { intros stats _. by eexists. }
  split; [exact Hempty|].
  pose proof (Hclosed 1 newConn ltac:(by eexists) eq_refl) as Hnet.
  split; [exact (f_equal (fmap closed) Hnet)|exact (f_equal (fmap received) Hnet)].
Defined.

(** No usage figure, no load average, a frequency: the CPU family holds
    the frequency and zeros. *)
Lemma getCPUStats_odd :
  fst (getCPUStats decimalFloat (worldAt oddOS 0)) = Ok (CPUStats.mk 0 [] 0 600).
Proof.
  etrans; [exact (getCPUStats_fields decimalFloat (worldAt oddOS 0))|]. by vm_compute.
Defined.

(** Without [disk.Usage] the disk family fails after one call into the OS. *)
Lemma getDiskStats_empty :
  getDiskStats (worldAt emptyOS 5) = (Err (errorString "no disk"), worldAt emptyOS 6).
Proof.
  exact (proj1 (getDiskStats_usage_decides (worldAt emptyOS 5))
           (errorString "no disk") eq_refl).
Defined.

(** The chip entry has no direction file: one read, an error, no mode. Pin
    17 reads as 1 with the mode "in". *)
Lemma readGPIOState_mock :
  readGPIOState "/sys/class/gpio/gpiochip0" (worldAt mockOS 0)
  = ((0%Z, EmptyString,
      Some (PathError "open" "/sys/class/gpio/gpiochip0/direction" ENOENT)),
     worldAt mockOS 1)
  /\ fst (readGPIOState "/sys/class/gpio/gpio17" (worldAt mockOS 0)) = (1%Z, "in", None).
Proof.
  split.
  - exact (proj1 (readGPIOState_outcomes "/sys/class/gpio/gpiochip0" (worldAt mockOS 0))
             _ ltac:(by vm_compute)).
  - destruct (readGPIOState_outcomes "/sys/class/gpio/gpio17" (worldAt mockOS 0))
      as [_ Hdir].
    destruct (Hdir (lf "in") ltac:(by vm_compute)) as (_ & _ & _ & _ & _ & Hvalue).
    cbv zeta in Hvalue.
    destruct (Hvalue (lf "1") 1%Z ltac:(by vm_compute) ltac:(by vm_compute)) as [Hrun _].
    etrans; [exact Hrun|]. by vm_compute.
Defined.
